(** * w3up-python: result constructors, schema combinators, and the
    capability validator

    A shallow embedding of [w3up/ucanto/core/schema/result.py] and
    [w3up/ucanto/core/schema/schema.py], of the data model declared in
    [w3up/ucanto/core/interfaces/capabilities.py] and [base.py], and of the
    parser algebra and the validation algorithm that those interfaces
    declare and the design document describes; followed by their
    properties. *)

From Stdlib Require Import ZArith List String Bool Lia Permutation.
From Stdlib Require Import DecimalString DecimalZ DecimalPos.
Import ListNotations.
Local Open Scope string_scope.
#[global] Set Warnings "-register-all".


(** ** Python values *)

Module python.

(** Exception objects.  [TypeError] is the builtin; [Failure] is the class
    of result.py, whose [message] property is [str(self)], that is, the
    text it was built with.  [ValidationFailure] is an instance of the
    [Failure] dataclass of capabilities.py or of one of its subclasses
    ([InvalidCapability], [DelegationError], [EscalatedDelegation],
    [InvalidAudience], [Unauthorized]), which derive from [Exception] and
    can be raised like any other: the name of its class and its [message]
    field. *)
Inductive exception : Type :=
| TypeError (text : string)
| Failure (text : string)
| ValidationFailure (class_name : string) (text : string).

Definition message (e : exception) : string :=
  match e with
  | TypeError text => text
  | Failure text => text
  | ValidationFailure _ text => text
  end.

(** [type(e).__name__] *)
Definition class_name_of (e : exception) : string :=
  match e with
  | TypeError _ => "TypeError"
  | Failure _ => "Failure"
  | ValidationFailure class_name _ => class_name
  end.

(** The objects the schema library inspects: [None], booleans, integers,
    strings, lists and dicts, and exception objects stored as payloads.
    A dict keeps its entries in insertion order. *)
Inductive value : Type :=
| VNone
| VBool (b : bool)
| VInt (z : Z)
| VStr (s : string)
| VList (items : list value)
| VDict (entries : list (value * value))
| VException (e : exception).

Definition dict : Type := list (value * value).

(** The outcome of a call: it returns or it raises. *)
Inductive outcome (A : Type) : Type :=
| Return (a : A)
| Raise (e : exception).
Arguments Return {A} a.
Arguments Raise {A} e.

(** [x is None] *)
Definition is_None (v : value) : bool :=
  match v with
  | VNone => true
  | _ => false
  end.

(** [isinstance(x, list)], [isinstance(x, dict)], [isinstance(x, str)],
    [isinstance(x, bool)] and [isinstance(x, int)]; a [bool] is an [int]. *)
Definition is_list (v : value) : bool :=
  match v with VList _ => true | _ => false end.
Definition is_dict (v : value) : bool :=
  match v with VDict _ => true | _ => false end.
Definition is_str (v : value) : bool :=
  match v with VStr _ => true | _ => false end.
Definition is_bool (v : value) : bool :=
  match v with VBool _ => true | _ => false end.
Definition is_int (v : value) : bool :=
  match v with VBool _ | VInt _ => true | _ => false end.

(** The values of the model that can be dict keys. *)
Definition hashable (v : value) : bool :=
  match v with
  | VNone | VBool _ | VInt _ | VStr _ => true
  | _ => false
  end.

(** Key equality, [==] on hashable values: [True == 1] and [False == 0]. *)
Definition key_eqb (a b : value) : bool :=
  match a, b with
  | VNone, VNone => true
  | VStr s, VStr t => String.eqb s t
  | VBool x, VBool y => Bool.eqb x y
  | VInt x, VInt y => Z.eqb x y
  | VBool x, VInt y | VInt y, VBool x => Z.eqb (Z.b2z x) y
  | _, _ => false
  end.

(** [k in d] *)
Definition dict_has (d : dict) (k : value) : bool :=
  existsb (fun entry => key_eqb (fst entry) k) d.

(** [d.get(k)] *)
Fixpoint dict_get (d : dict) (k : value) : option value :=
  match d with
  | [] => None
  | (k', v') :: rest => if key_eqb k' k then Some v' else dict_get rest k
  end.

(** [d[k] = v]: an existing entry keeps its place and its key object,
    a new one goes to the end. *)
Fixpoint dict_set (d : dict) (k v : value) : dict :=
  match d with
  | [] => [(k, v)]
  | (k', v') :: rest =>
      if key_eqb k' k then (k', v) :: rest else (k', v') :: dict_set rest k v
  end.

(** What every dict object satisfies: hashable, pairwise different keys. *)
Fixpoint dict_wf (d : dict) : bool :=
  match d with
  | [] => true
  | (k, _) :: rest => hashable k && negb (dict_has rest k) && dict_wf rest
  end.

End python.

(** ** result.py *)

Module result.
Import python.

(** [def ok(value)] *)
Definition ok (value : value) : outcome python.value :=
  if is_None value
  then Raise (TypeError "ok(None) is not allowed, consider ok({}) instead")
  else Return (VDict [(VStr "ok", value)]).

(** [def error(cause)] *)
Definition error (cause : value) : outcome python.value :=
  if is_None cause
  then Raise (TypeError
                "error(None) is not allowed, consider passing an error instead")
  else Return (VDict [(VStr "error", cause)]).

(** [def panic(message)] *)
Definition panic {A : Type} (message : string) : outcome A :=
  Raise (Failure message).

(** [def fail(message)] *)
Definition fail (message : string) : python.value :=
  VDict [(VStr "error", VException (Failure message))].

End result.

(** ** schema.py *)

Module schema.
Import python.

(** The error classes; the message text each one formats from its fields
    is presentation and is not kept. *)
Inductive SchemaError : Type :=
| TypeError_ (expect : string) (actual : value)
| UnionError (causes : list SchemaError)
| ElementError (index : nat) (cause : SchemaError)
| FieldError (key : value) (cause : SchemaError).

(** [@dataclass class Result]: both fields default to [None]. *)
Record Result : Type := mkResult {
  ok : value;
  error : option SchemaError
}.

(** [Result(ok=v)] and [Result(error=e)] *)
Definition Result_ok (v : value) : Result := mkResult v None.
Definition Result_error (e : SchemaError) : Result := mkResult VNone (Some e).

(** [class API]: an object with a [read] method.  Each class below gives
    [read_with]; [read(x)] is [read_with(x, self.settings)]. *)
Record API : Type := mkAPI {
  read : value -> Result
}.

(** [API.is_valid] *)
Definition is_valid (self : API) (v : value) : bool :=
  match error (read self v) with
  | None => true
  | Some _ => false
  end.

(** [class Never] *)
Definition Never_read_with (input_value : value) (settings : unit) : Result :=
  Result_error (TypeError_ "never" input_value).
Definition Never : API := mkAPI (fun x => Never_read_with x tt).

(** [class Unknown] *)
Definition Unknown_read_with (input_value : value) (settings : unit) : Result :=
  Result_ok input_value.
Definition Unknown : API := mkAPI (fun x => Unknown_read_with x tt).

(** [class Nullable] *)
Definition Nullable_read_with (input_value : value) (reader : API) : Result :=
  if is_None input_value then Result_ok VNone
  else
    let result := read reader input_value in
    match error result with
    | Some e => Result_error (UnionError [e; TypeError_ "null" input_value])
    | None => result
    end.
Definition Nullable (reader : API) : API :=
  mkAPI (fun x => Nullable_read_with x reader).

(** [class Optional_] *)
Definition Optional_read_with (input_value : value) (reader : API) : Result :=
  if is_None input_value then Result_ok VNone
  else
    let result := read reader input_value in
    match error result with
    | Some _ => if is_None input_value then Result_ok VNone else result
    | None => result
    end.
Definition Optional_ (reader : API) : API :=
  mkAPI (fun x => Optional_read_with x reader).

(** [class ArrayOf]: the [for index, value in enumerate(input_value)] loop,
    with the [results] list threaded through. *)
Fixpoint ArrayOf_loop (schema : API) (index : nat) (input_value : list value)
    (results : list value) : Result :=
  match input_value with
  | [] => Result_ok (VList results)
  | value :: rest =>
      let result := read schema value in
      match error result with
      | Some e => Result_error (ElementError index e)
      | None => ArrayOf_loop schema (S index) rest (results ++ [ok result])
      end
  end.

Definition ArrayOf_read_with (input_value : value) (schema : API) : Result :=
  match input_value with
  | VList items => ArrayOf_loop schema 0 items []
  | _ => Result_error (TypeError_ "array" input_value)
  end.
Definition ArrayOf (schema : API) : API :=
  mkAPI (fun x => ArrayOf_read_with x schema).

(** The settings of a [Dictionary]: [{"value": ..., "key": ...}]. *)
Record DictionarySettings : Type := mkDictionarySettings {
  value_ : API;
  key : API
}.

(** [class Dictionary]: the [for key, value in input_value.items()] loop,
    with the [result] dict threaded through. *)
Fixpoint Dictionary_loop (settings : DictionarySettings) (items : dict)
    (result : dict) : Result :=
  match items with
  | [] => Result_ok (VDict result)
  | (k, v) :: rest =>
      let key_result := read (key settings) k in
      match error key_result with
      | Some e => Result_error (FieldError k e)
      | None =>
          let value_result := read (value_ settings) v in
          match error value_result with
          | Some e => Result_error (FieldError k e)
          | None =>
              if is_None (ok value_result)
              then Dictionary_loop settings rest result
              else Dictionary_loop settings rest
                     (dict_set result (ok key_result) (ok value_result))
          end
      end
  end.

Definition Dictionary_read_with (input_value : value)
    (settings : DictionarySettings) : Result :=
  match input_value with
  | VDict items => Dictionary_loop settings items []
  | _ => Result_error (TypeError_ "dictionary" input_value)
  end.
Definition Dictionary (settings : DictionarySettings) : API :=
  mkAPI (fun x => Dictionary_read_with x settings).

(** [class String], [class Boolean], [class Integer].  [class Number]
    answers [float(input_value)]; floats are outside the value model, and
    the properties below hold of any reader. *)
Definition String_read_with (input_value : value) (settings : unit) : Result :=
  if is_str input_value then Result_ok input_value
  else Result_error (TypeError_ "string" input_value).
Definition String : API := mkAPI (fun x => String_read_with x tt).

Definition Boolean_read_with (input_value : value) (settings : unit) : Result :=
  if is_bool input_value then Result_ok input_value
  else Result_error (TypeError_ "boolean" input_value).
Definition Boolean : API := mkAPI (fun x => Boolean_read_with x tt).

Definition Integer_read_with (input_value : value) (settings : unit) : Result :=
  if is_int input_value then Result_ok input_value
  else Result_error (TypeError_ "integer" input_value).
Definition Integer : API := mkAPI (fun x => Integer_read_with x tt).

(** [def dictionary(value_schema, key_schema=None)] *)
Definition dictionary (value_schema : API) (key_schema : option API) : API :=
  Dictionary (mkDictionarySettings value_schema
                (match key_schema with Some k => k | None => String end)).

End schema.

(** ** interfaces/capabilities.py and interfaces/base.py: the data model *)

Module capabilities.
Import python.

Definition DID : Type := string.
Definition Resource : Type := string.
Definition Ability : Type := string.
Definition UTCUnixTimestamp : Type := Z.
(** [UCANLink = Any]: an opaque content address. *)
Definition UCANLink : Type := string.

(** [@dataclass class Capability]: raw capability data. *)
Record Capability : Type := mkCapability {
  can : Ability;
  with_ : Resource;
  nb : option dict
}.

(** [@dataclass class ParsedCapability]; the typed caveats are the value
    the caveat schema decoded. *)
Record ParsedCapability : Type := mkParsedCapability {
  parsed_can : Ability;
  parsed_with : Resource;
  parsed_nb : option value
}.

(** A proof of a delegation [D]: an inline delegation or a link. *)
Inductive ProofOf (D : Type) : Type :=
| Inline (delegation : D)
| Link (link : UCANLink).
Arguments Inline {D} delegation.
Arguments Link {D} link.

(** [class Delegation(Protocol)] of base.py, with the fields validation
    reads.  A principal stands for its [did()]. *)
Inductive Delegation : Type := mkDelegation {
  cid : UCANLink;
  issuer : DID;
  audience : DID;
  capabilities : list Capability;
  expiration : UTCUnixTimestamp;
  not_before : option UTCUnixTimestamp;
  proofs : list (ProofOf Delegation)
}.

Definition Proof : Type := ProofOf Delegation.

(** [@dataclass class Source] *)
Record Source : Type := mkSource {
  capability : Capability;
  delegation : Delegation
}.

(** [@dataclass class Match] *)
Record Match : Type := mkMatch {
  source : list Source;
  value : ParsedCapability;
  match_proofs : list Delegation
}.

(** The failure classes.  Each is a dataclass over [Failure]; the inherited
    [message] is kept on the base class only, where the caller of [derive]
    supplies it, and [name], fixed by the class, is kept where it varies.
    [Failure] derives from [Exception]: the records below are the
    instances as data, and an instance that is raised is a
    [python.ValidationFailure]. *)
Record Failure : Type := mkFailure {
  failure_message : string
}.

Inductive InvalidCapabilityName : Type :=
| UnknownCapability
| MalformedCapability.

Record InvalidCapability : Type := mkInvalidCapability {
  name : InvalidCapabilityName;
  invalid_capability : Capability
}.

Record EscalatedDelegation : Type := mkEscalatedDelegation {
  claimed : ParsedCapability;
  delegated : ParsedCapability;
  escalation_cause : Failure
}.

Inductive DelegationCauseOf (E : Type) : Type :=
| CauseInvalidCapability (e : InvalidCapability)
| CauseEscalatedDelegation (e : EscalatedDelegation)
| CauseDelegationError (e : E).
Arguments CauseInvalidCapability {E} e.
Arguments CauseEscalatedDelegation {E} e.
Arguments CauseDelegationError {E} e.

Inductive DelegationError : Type := mkDelegationError {
  causes : list (DelegationCauseOf DelegationError);
  cause : DelegationCauseOf DelegationError
}.

Inductive InvalidAudience : Type := mkInvalidAudience.

(** [@dataclass class Select] *)
Record Select : Type := mkSelect {
  matches : list Match;
  errors : list DelegationError;
  unknown : list Capability
}.

(** [class CanIssue(Protocol)]: a pure predicate (section 4.4). *)
Record CanIssue : Type := mkCanIssue {
  can_issue : ParsedCapability -> DID -> bool
}.

(** [Match.prune]: a method of the dataclass [Match], documented as
    "Prune invalid capability chains" and annotated [Optional["Match"]];
    its body is [...], an expression statement, so that every call falls
    off the end and returns [None]. *)
Definition prune (self : Match) (config : CanIssue) : option Match :=
  None.

(** [@dataclass class Authorization] *)
Inductive Authorization : Type := mkAuthorization {
  authorization_delegation : Delegation;
  authorization_capability : ParsedCapability;
  authorization_proofs : list Authorization;
  authorization_issuer : DID;
  authorization_audience : DID
}.

End capabilities.

(** ** The parser algebra and the validator

    capabilities.py declares the protocols [CapabilityParser], [Matcher],
    [Selector], [ProofResolver] and [Validator], whose methods are
    abstract and which no class under the source tree implements; what
    they compute is taken from the design document, sections 4.1, 4.2 and
    7. *)

Module validator.
Import python capabilities.

(** Modelled from the spec: [UnavailableProof], which the signature of
    [ProofResolver.resolve] names and no source file declares; section 7:
    "resolver could not produce a linked delegation". *)
Record UnavailableProof : Type := mkUnavailableProof {
  unavailable_link : UCANLink
}.

(** Modelled from the spec: [InvalidProof], the element type of
    [Unauthorized.invalid_proofs], which no source file declares.  It holds
    the failures of a proof that is not walked any further (section 4.2,
    steps 2a and 2c, and the depth bound of section 9): the link does not
    resolve, the audience does not chain, the delegation is out of its time
    window, or the proof lies deeper than the bound. *)
Inductive InvalidProof : Type :=
| ProofUnavailable (e : UnavailableProof)
| ProofInvalidAudience (proof : Delegation) (e : InvalidAudience)
| ProofExpired (proof : Delegation)
| ProofNotValidBefore (proof : Delegation)
| ProofTooDeep (proof : Delegation).

(** Modelled from the spec: [InvalidClaim], the element type of
    [Unauthorized.failed_proofs], which no source file declares: the
    recursive failure of one proof (section 4.2, step 3), that is, the
    proof and why validating it failed. *)
Record InvalidClaimOf (U : Type) : Type := mkInvalidClaim {
  claim_proof : Delegation;
  claim_cause : U
}.
Arguments mkInvalidClaim {U} claim_proof claim_cause.
Arguments claim_proof {U} i.
Arguments claim_cause {U} i.

(** [@dataclass class Unauthorized] *)
Inductive Unauthorized : Type := mkUnauthorized {
  delegation_errors : list DelegationError;
  unknown_capabilities : list Capability;
  invalid_proofs : list InvalidProof;
  failed_proofs : list (InvalidClaimOf Unauthorized)
}.

Definition InvalidClaim : Type := InvalidClaimOf Unauthorized.

(** [class ProofResolver(Protocol)]: [resolve] answers the delegation or
    the [UnavailableProof] (section 4.3). *)
Record ProofResolver : Type := mkProofResolver {
  resolve : UCANLink -> Delegation + UnavailableProof
}.

(** Modelled from the spec: the normalized identity of a [Verifier], which
    [PrincipalParser.parse] produces and invariant 1 compares (section 3);
    [class Verifier(Protocol)] of base.py declares [verify] only. *)
Record Verifier : Type := mkVerifier {
  verifier_did : DID
}.

(** [class PrincipalParser(Protocol)] of base.py *)
Record PrincipalParser : Type := mkPrincipalParser {
  principal_parse : DID -> Verifier
}.

(** Modelled from the spec: what defines one ability of a
    [CapabilityParser], whose methods the source declares without a body
    (section 4.1): the ability it recognizes, the schemas that decode
    [with] and [nb] (the caveat-schema collaborator is schema.py), and its
    narrowing rule (section 4.2, escalation policy), which answers the
    cause when the claimed capability is broader than the delegated one. *)
Record Descriptor : Type := mkDescriptor {
  descriptor_can : Ability;
  with_schema : schema.API;
  nb_schema : schema.API;
  derives : ParsedCapability -> ParsedCapability -> option Failure
}.

(** Modelled from the spec: the parsers [CapabilityParser] builds, whose
    methods the source declares without a body (section 4.1): one
    capability, [self.or_(other)], and [self.derive({to, derives})]. *)
Inductive CapabilityParser : Type :=
| capability_ (descriptor : Descriptor)
| or_ (self other : CapabilityParser)
| derive (self to : CapabilityParser)
    (rule : ParsedCapability -> ParsedCapability -> option Failure).

(** Modelled from the spec: the structural decoding of [with] and [nb],
    "delegated to the caveat-schema collaborator" (section 4.1); the
    source has no decoder. *)
Definition decode (d : Descriptor) (c : Capability) : option ParsedCapability :=
  let with_result := schema.read (with_schema d) (VStr (with_ c)) in
  let nb_result :=
    schema.read (nb_schema d)
      (match nb c with Some caveats => VDict caveats | None => VNone end) in
  match schema.error with_result, schema.error nb_result with
  | None, None =>
      Some (mkParsedCapability (can c) (with_ c)
              (if is_None (schema.ok nb_result) then None
               else Some (schema.ok nb_result)))
  | _, _ => None
  end.

(** Modelled from the spec: "[can] is recognized by this parser" (section
    4.1), for the missing body of [CapabilityParser.parse]. *)
Fixpoint recognizes (p : CapabilityParser) (a : Ability) : bool :=
  match p with
  | capability_ d => String.eqb (descriptor_can d) a
  | or_ self other => recognizes self a || recognizes other a
  | derive self to rule => recognizes to a
  end.

(** Modelled from the spec: the missing body of [CapabilityParser.parse]
    (section 4.1): [UnknownCapability] if [can] is not recognized,
    [MalformedCapability] if it is and [with]/[nb] do not decode; [or]
    accepts what either branch accepts, the first branch winning; a derived
    parser parses the capability it derives. *)
Fixpoint parse (p : CapabilityParser) (c : Capability)
    : Match + InvalidCapability :=
  match p with
  | capability_ d =>
      if String.eqb (descriptor_can d) (can c)
      then match decode d c with
           | Some parsed => inl (mkMatch [] parsed [])
           | None => inr (mkInvalidCapability MalformedCapability c)
           end
      else inr (mkInvalidCapability UnknownCapability c)
  | or_ self other =>
      match parse self c with
      | inl m => inl m
      | inr e1 =>
          match parse other c with
          | inl m => inl m
          | inr e2 =>
              match name e1 with
              | MalformedCapability => inr e1
              | UnknownCapability => inr e2
              end
          end
      end
  | derive self to rule => parse to c
  end.

(** Modelled from the spec: the missing body of [Matcher.match]: parse the
    capability of the source and keep where it came from. *)
Definition match_ (p : CapabilityParser) (s : Source) : Match + InvalidCapability :=
  match parse p (capability s) with
  | inl m => inl (mkMatch [s] (value m) [delegation s])
  | inr e => inr e
  end.

(** Modelled from the spec: the missing body of [Selector.select]
    (section 4.1): every capability is diagnosed, as a match, as an
    unknown capability, or as an error. *)
Fixpoint select (p : CapabilityParser) (sources : list Source) : Select :=
  match sources with
  | [] => mkSelect [] [] []
  | s :: rest =>
      let selected := select p rest in
      match match_ p s with
      | inl m =>
          mkSelect (m :: matches selected) (errors selected) (unknown selected)
      | inr e =>
          match name e with
          | UnknownCapability =>
              mkSelect (matches selected) (errors selected)
                (capability s :: unknown selected)
          | MalformedCapability =>
              mkSelect (matches selected)
                (mkDelegationError [CauseInvalidCapability e]
                   (CauseInvalidCapability e) :: errors selected)
                (unknown selected)
          end
      end
  end.

(** Modelled from the spec: the narrowing check of invariant 3 and of the
    escalation policy (section 4.2), which the source leaves to the
    bodiless parser: [None] when no rule of the parser relates the two
    abilities, [Some None] when the claimed capability is no broader than
    the delegated one, [Some (Some cause)] when it escalates. *)
Fixpoint narrowing (p : CapabilityParser) (claimed delegated : ParsedCapability)
    : option (option Failure) :=
  match p with
  | capability_ d =>
      if String.eqb (descriptor_can d) (parsed_can claimed)
         && String.eqb (descriptor_can d) (parsed_can delegated)
      then Some (derives d claimed delegated)
      else None
  | or_ self other =>
      match narrowing self claimed delegated with
      | Some answer => Some answer
      | None => narrowing other claimed delegated
      end
  | derive self to rule =>
      match narrowing to claimed delegated with
      | Some answer => Some answer
      | None =>
          if recognizes to (parsed_can claimed)
             && recognizes self (parsed_can delegated)
          then Some (rule claimed delegated)
          else None
      end
  end.

(** [@dataclass class ValidationOptions].  A required parser that the
    caller left out is [None]. *)
Record ValidationOptions : Type := mkValidationOptions {
  options_capability : option CapabilityParser;
  authority : Verifier;
  principal : option PrincipalParser;
  options_can_issue : option CanIssue;
  resolver : option ProofResolver
}.

(** Modelled from the spec: the outcome of one proof path (section 4.2,
    steps 2c and 3), for the missing body of [Validator.validate]: it
    authorizes the claim, or its failure is recorded. *)
Inductive Branch : Type :=
| Authorized (a : Authorization)
| Invalid (e : InvalidProof)
| Failed (e : InvalidClaim).

(** Modelled from the spec: the sources step 1 of section 4.2 parses, the
    capabilities of the delegation with their provenance. *)
Definition sources (d : Delegation) : list Source :=
  map (fun c => mkSource c d) (capabilities d).

(** Modelled from the spec: the candidates of step 2 of section 4.2, the
    matches whose value covers the claim, and the escalations among the
    others, each "surfaced as an [EscalatedDelegation]" (section 4.1). *)
Fixpoint candidates (p : CapabilityParser) (claim : ParsedCapability)
    (ms : list Match) : list Match * list DelegationError :=
  match ms with
  | [] => ([], [])
  | m :: rest =>
      let (compatible, escalated) := candidates p claim rest in
      match narrowing p claim (value m) with
      | Some None => (m :: compatible, escalated)
      | Some (Some why) =>
          let e := CauseEscalatedDelegation
                     (mkEscalatedDelegation claim (value m) why) in
          (compatible, mkDelegationError [e] e :: escalated)
      | None => (compatible, escalated)
      end
  end.

(** Modelled from the spec: the first successful path of the left-to-right
    walk (section 4.2, step 4). *)
Fixpoint first_authorized (branches : list Branch) : option Authorization :=
  match branches with
  | [] => None
  | Authorized a :: _ => Some a
  | _ :: rest => first_authorized rest
  end.

(** Modelled from the spec: the recorded failures of the walked paths
    (section 4.2, steps 3 and 4), in walk order. *)
Fixpoint invalid_of (branches : list Branch) : list InvalidProof :=
  match branches with
  | [] => []
  | Invalid e :: rest => e :: invalid_of rest
  | _ :: rest => invalid_of rest
  end.

(** Modelled from the spec: the recorded recursive failures of the walked
    paths (section 4.2, steps 3 and 4), in walk order. *)
Fixpoint failed_of (branches : list Branch) : list InvalidClaim :=
  match branches with
  | [] => []
  | Failed e :: rest => e :: failed_of rest
  | _ :: rest => failed_of rest
  end.

Section walk.
Variable parser : CapabilityParser.
Variable principal_parser : PrincipalParser.
Variable can_issue_hook : option CanIssue.
Variable proof_resolver : option ProofResolver.
Variable now : UTCUnixTimestamp.

(** Modelled from the spec: resolving a proof (section 4.2, step 2c, and
    section 4.3); an inline proof is there already, a link goes to the
    resolver, and without a resolver no link resolves. *)
Definition resolve_proof (p : Proof) : Delegation + UnavailableProof :=
  match p with
  | Inline d => inl d
  | Link l =>
      match proof_resolver with
      | Some r => resolve r l
      | None => inr (mkUnavailableProof l)
      end
  end.

(** Modelled from the spec: invariant 2 (section 3) as checked by step 2a
    of section 4.2: [now] lies in [[not_before, expiration)]. *)
Definition time_violation (d : Delegation) : option InvalidProof :=
  if (expiration d <=? now)%Z then Some (ProofExpired d)
  else match not_before d with
       | Some start =>
           if (now <? start)%Z then Some (ProofNotValidBefore d) else None
       | None => None
       end.

(** Modelled from the spec: step 2b of section 4.2; no issuer is
    self-authoritative unless the injected policy says so (section 4.4). *)
Definition self_authoritative (claim : ParsedCapability) (d : Delegation) : bool :=
  match can_issue_hook with
  | Some policy => can_issue policy claim (issuer d)
  | None => false
  end.

(** Modelled from the spec: invariant 1 (section 3), identities compared
    in the normalized form [PrincipalParser] produces. *)
Definition same_principal (a b : DID) : bool :=
  String.eqb (verifier_did (principal_parse principal_parser a))
             (verifier_did (principal_parse principal_parser b)).

(** Modelled from the spec: one proof path (section 4.2, step 2c):
    resolve the proof, check that its audience is the issuer of the
    delegation, and validate the proof for the claim; [validate_proof] is
    [None] when the depth bound is reached. *)
Definition walk_proof
    (validate_proof :
       option (ParsedCapability -> Delegation -> Authorization + Unauthorized))
    (claim : ParsedCapability) (d : Delegation) (p : Proof) : Branch :=
  match resolve_proof p with
  | inr e => Invalid (ProofUnavailable e)
  | inl proof =>
      if same_principal (audience proof) (issuer d)
      then match validate_proof with
           | None => Invalid (ProofTooDeep proof)
           | Some recur =>
               match recur claim proof with
               | inl a => Authorized a
               | inr u => Failed (mkInvalidClaim proof u)
               end
           end
      else Invalid (ProofInvalidAudience proof mkInvalidAudience)
  end.

(** Modelled from the spec: the algorithm of [Validator.validate]
    (section 4.2), which the source declares without a body, bounded in
    depth as section 9 requires.  Steps 2a to 2c read the claim and the
    delegation only, so the candidates share one walk. *)
Fixpoint authorize (depth : nat) (claim : ParsedCapability) (d : Delegation)
    {struct depth} : Authorization + Unauthorized :=
  let selected := select parser (sources d) in
  let (compatible, escalated) := candidates parser claim (matches selected) in
  let diagnosed := (errors selected ++ escalated)%list in
  match compatible with
  | [] => inr (mkUnauthorized diagnosed (unknown selected) [] [])
  | _ :: _ =>
      match time_violation d with
      | Some e => inr (mkUnauthorized diagnosed (unknown selected) [e] [])
      | None =>
          if self_authoritative claim d
          then inl (mkAuthorization d claim [] (issuer d) (audience d))
          else
            let deeper :=
              match depth with
              | O => None
              | S n => Some (authorize n)
              end in
            let branches := map (walk_proof deeper claim d) (proofs d) in
            match first_authorized branches with
            | Some a =>
                inl (mkAuthorization d claim [a] (issuer d) (audience d))
            | None =>
                inr (mkUnauthorized diagnosed (unknown selected)
                       (invalid_of branches) (failed_of branches))
            end
      end
  end.

(** Modelled from the spec: the recursive call a walk at [depth] makes. *)
Definition deeper (depth : nat)
    : option (ParsedCapability -> Delegation -> Authorization + Unauthorized) :=
  match depth with
  | O => None
  | S n => Some (authorize n)
  end.

(** Modelled from the spec: the outcomes of the proof paths of a
    delegation, in order, one for each of its proofs. *)
Definition proof_branches (depth : nat) (claim : ParsedCapability)
    (d : Delegation) : list Branch :=
  map (walk_proof (deeper depth) claim d) (proofs d).

(** Modelled from the spec: the delegation gets as far as its proofs
    (section 4.2): it grants a capability that covers the claim, it is
    within its time window, and its issuer is not self-authoritative. *)
Definition proofs_walked (claim : ParsedCapability) (d : Delegation) : bool :=
  match fst (candidates parser claim (matches (select parser (sources d)))) with
  | [] => false
  | _ :: _ =>
      match time_violation d with
      | Some _ => false
      | None => negb (self_authoritative claim d)
      end
  end.

End walk.

(** Modelled from the spec: [Validator.validate], declared without a body
    (sections 4.2 and 7): a missing required parser is the one fatal
    failure, every other outcome is returned.  [now] is the clock at
    validation time and [max_depth] the depth bound. *)
Definition validate (capability : ParsedCapability) (delegation : Delegation)
    (options : ValidationOptions) (now : UTCUnixTimestamp) (max_depth : nat)
    : outcome (Authorization + Unauthorized) :=
  match options_capability options, principal options with
  | Some parser, Some principal_parser =>
      Return (authorize parser principal_parser (options_can_issue options)
                (resolver options) now max_depth capability delegation)
  | _, _ => result.panic "ValidationOptions is missing a required parser"
  end.

End validator.

(** ** Vocabulary of the schema properties *)

Module schema_spec.
Import python schema.

(** A value validates when its result carries no error. *)
Definition validates (s : API) (x : value) : Prop := error (read s x) = None.

(** A key validates unchanged: no error, and the validated key is the key
    itself.  [String], the default key schema of [dictionary], does so,
    and so do the schemas of [shipped] below (see
    [shipped_keys_unchanged]); [Number], which answers
    [float(input_value)], does not. *)
Definition validates_unchanged (s : API) (k : value) : Prop :=
  read s k = Result_ok k.

(** The entries [Dictionary.read] keeps: the entries of the input, in
    order, with the validated value, without those whose validated value
    is [None]. *)
Definition validated_entries (settings : DictionarySettings) (d : dict) : dict :=
  flat_map
    (fun entry =>
       let v := ok (read (value_ settings) (snd entry)) in
       if is_None v then [] else [(fst entry, v)])
    d.

(** The schemas built from [Never], [Unknown], [String], [Boolean],
    [Integer], [Nullable], [Optional_], [ArrayOf] and [Dictionary].
    [Number], the one other schema class of schema.py, is not among them:
    it answers [float(input_value)], not its input. *)
Inductive shipped : API -> Prop :=
| shipped_Never : shipped Never
| shipped_Unknown : shipped Unknown
| shipped_String : shipped String
| shipped_Boolean : shipped Boolean
| shipped_Integer : shipped Integer
| shipped_Nullable reader : shipped reader -> shipped (Nullable reader)
| shipped_Optional reader : shipped reader -> shipped (Optional_ reader)
| shipped_ArrayOf element : shipped element -> shipped (ArrayOf element)
| shipped_Dictionary settings :
    shipped (value_ settings) -> shipped (key settings) ->
    shipped (Dictionary settings).

End schema_spec.

(** ** A key schema that changes keys *)

Module schema_scenarios.
Import python schema.

(** A schema class of a caller's own, written as those of schema.py are:
    [read_with] answers [Result(ok=abs(input_value))] when
    [isinstance(input_value, int)] and
    [Result(error=TypeError_("integer", input_value))] otherwise. *)
Definition Absolute_read_with (input_value : value) (settings : unit) : Result :=
  match input_value with
  | VInt n => Result_ok (VInt (Z.abs n))
  | VBool b => Result_ok (VInt (Z.b2z b))
  | _ => Result_error (TypeError_ "integer" input_value)
  end.
Definition Absolute : API := mkAPI (fun x => Absolute_read_with x tt).

(** [Dictionary({"value": Unknown(), "key": Absolute()})] and the dict
    [{1: "a", -1: "b"}]. *)
Definition by_absolute : DictionarySettings :=
  mkDictionarySettings Unknown Absolute.

Definition signed : dict :=
  [(VInt 1, VStr "a"); (VInt (-1), VStr "b")].

End schema_scenarios.

(** ** Vocabulary of the parser properties, and the scenarios of section 8 *)

Module validator_spec.
Import python capabilities validator.

(** Some capability of the parser with the ability of [c] decodes [c]. *)
Fixpoint decodes (p : CapabilityParser) (c : Capability) : bool :=
  match p with
  | capability_ d =>
      String.eqb (descriptor_can d) (can c)
      && match decode d c with Some _ => true | None => false end
  | or_ self other => decodes self c || decodes other c
  | derive self to rule => decodes to c
  end.


(** The delegation carries a capability that covers the claim: step 2 of
    section 4.2 finds a candidate. *)
Definition carries_claim (parser : CapabilityParser) (claim : ParsedCapability)
    (d : Delegation) : bool :=
  match fst (candidates parser claim (matches (select parser (sources d)))) with
  | [] => false
  | _ :: _ => true
  end.

(** What steps 1 and 2 of section 4.2 diagnose in the capabilities of a
    delegation: the malformed and the escalated ones. *)
Definition diagnosed (parser : CapabilityParser) (claim : ParsedCapability)
    (d : Delegation) : list DelegationError :=
  (errors (select parser (sources d))
   ++ snd (candidates parser claim (matches (select parser (sources d)))))%list.

(** The number of failures an [Unauthorized] records for proof paths. *)
Definition recorded_proof_failures (u : Unauthorized) : nat :=
  List.length (invalid_proofs u) + List.length (failed_proofs u).




Section success.
Variable parser : CapabilityParser.
Variable principal_parser : PrincipalParser.
Variable can_issue_hook : option CanIssue.
Variable proof_resolver : option ProofResolver.
Variable now : UTCUnixTimestamp.


End success.

End validator_spec.

Module scenarios.
Import python capabilities validator.

(** [nb.size] of a claim and [nb.size.max] of a grant. *)
Definition size_of (caveats : option python.value) : option Z :=
  match caveats with
  | Some (VDict entries) =>
      match dict_get entries (VStr "size") with
      | Some (VInt n) => Some n
      | _ => None
      end
  | _ => None
  end.

Definition max_size_of (caveats : option python.value) : option Z :=
  match caveats with
  | Some (VDict entries) =>
      match dict_get entries (VStr "size") with
      | Some (VDict limits) =>
          match dict_get limits (VStr "max") with
          | Some (VInt n) => Some n
          | _ => None
          end
      | _ => None
      end
  | _ => None
  end.

(** The narrowing rule of [store/add]: the same resource, and a claimed
    size within the granted maximum when there is one. *)
Definition store_add_derives (claimed delegated : ParsedCapability)
    : option Failure :=
  if negb (String.eqb (parsed_with claimed) (parsed_with delegated))
  then Some (mkFailure "resource is not the delegated one")
  else match max_size_of (parsed_nb delegated) with
       | None => None
       | Some limit =>
           match size_of (parsed_nb claimed) with
           | Some n =>
               if (n <=? limit)%Z then None
               else Some (mkFailure "size exceeds the delegated maximum")
           | None => Some (mkFailure "size is not constrained")
           end
       end.

Definition store_add : CapabilityParser :=
  capability_
    (mkDescriptor "store/add" schema.String (schema.Nullable schema.Unknown)
       store_add_derives).

(** Only [did:key:A] is self-authoritative. *)
Definition root_policy : CanIssue :=
  mkCanIssue (fun _ did => String.eqb did "did:key:A").

Definition options : ValidationOptions :=
  mkValidationOptions (Some store_add) (mkVerifier "did:key:service")
    (Some (mkPrincipalParser mkVerifier)) (Some root_policy) None.

Definition now : UTCUnixTimestamp := 1000%Z.

Definition store_add_space1 (caveats : option dict) : Capability :=
  mkCapability "store/add" "did:key:space1" caveats.

(** Scenario A: [A] delegates to [B], and [B] to [C] with a size limit. *)
Definition a_to_b : Delegation :=
  mkDelegation "cid:a-b" "did:key:A" "did:key:B"
    [store_add_space1 None] 4600%Z None [].

Definition limit_100 : option dict :=
  Some [(VStr "size", VDict [(VStr "max", VInt 100)])].

Definition b_to_c : Delegation :=
  mkDelegation "cid:b-c" "did:key:B" "did:key:C"
    [store_add_space1 limit_100] 4600%Z None [Inline a_to_b].

Definition claim (size : Z) : ParsedCapability :=
  mkParsedCapability "store/add" "did:key:space1"
    (Some (VDict [(VStr "size", VInt size)])).

(** Scenario C: the next link is issued by another key than the audience
    of [a_to_b]. *)
Definition b2_to_c : Delegation :=
  mkDelegation "cid:b2-c" "did:key:B2" "did:key:C"
    [store_add_space1 limit_100] 4600%Z None [Inline a_to_b].

(** A self-issued grant of [A] that has expired. *)
Definition a_expired : Delegation :=
  mkDelegation "cid:a-old" "did:key:A" "did:key:B"
    [store_add_space1 None] 500%Z None [].

(** A delegation of [B] with two proofs that both fail: a link that does
    not resolve, and a delegation addressed to somebody else. *)
Definition a_to_d : Delegation :=
  mkDelegation "cid:a-d" "did:key:A" "did:key:D"
    [store_add_space1 None] 4600%Z None [].

Definition b_to_c_two_bad_proofs : Delegation :=
  mkDelegation "cid:b-c-bad" "did:key:B" "did:key:C"
    [store_add_space1 limit_100] 4600%Z None
    [Link "cid:missing"; Inline a_to_d].



(** A delegation of [B] whose first proof does not resolve and whose
    second proof is the grant of [A]. *)
Definition b_to_c_one_bad_proof : Delegation :=
  mkDelegation "cid:b-c-mixed" "did:key:B" "did:key:C"
    [store_add_space1 limit_100] 4600%Z None
    [Link "cid:missing"; Inline a_to_b].

End scenarios.

(** ** schema.py: [from_value], [to_string]; base.py: [HTTPError] *)

Module schema_api.
Import python schema.

(** What [from_value] does: it returns a value or raises a schema error. *)
Inductive converted : Type :=
| Converted (v : value)
| RaisedSchemaError (e : SchemaError).

(** [API.from_value] *)
Definition from_value (self : API) (v : value) : converted :=
  let result := read self v in
  match error result with
  | Some e => RaisedSchemaError e
  | None => Converted (ok result)
  end.

(** [str(n)] for an [int]. *)
Definition str_int (n : Z) : string :=
  DecimalString.NilZero.string_of_int (Z.to_int n).

(** The double quote character. *)
Definition quote : string := String.String (Ascii.ascii_of_nat 34) EmptyString.

(** [def to_string(value)]; [type(value).__name__] of an exception object
    is the name of its class. *)
Definition to_string (v : value) : string :=
  match v with
  | VNone => "null"
  | VBool b => if b then "true" else "false"
  | VInt n => str_int n
  | VStr s => quote ++ s ++ quote
  | VList _ => "array"
  | VDict _ => "object"
  | VException e => class_name_of e
  end.

End schema_api.

Module base.
Import python.

(** [class HTTPError(Exception)]: [status], [message], and the text the
    exception is built with, [message or f"HTTP {status}"]. *)
Record HTTPError : Type := mkHTTPError {
  status : Z;
  message : option string;
  text : string
}.

(** [HTTPError.__init__(status, message=None)] *)
Definition HTTPError_init (status : Z) (message : option string) : HTTPError :=
  mkHTTPError status message
    (match message with
     | Some (String c rest) => String c rest
     | Some EmptyString | None => "HTTP " ++ schema_api.str_int status
     end).

End base.

(** ** Vocabulary of the further schema properties *)

Module schema_lookup.
Import python schema.

(** What looking [k'] up gives once one more entry is stored: an entry
    whose validated value is [None] stores nothing, an entry whose
    validated key equals [k'] replaces what was there. *)
Definition store_step (settings : DictionarySettings) (k' : value)
    (found : option value) (entry : value * value) : option value :=
  let validated := ok (read (value_ settings) (snd entry)) in
  if is_None validated then found
  else if key_eqb (ok (read (key settings) (fst entry))) k'
       then Some validated
       else found.

(** Looking [k'] up after the entries of [d] are stored in input order. *)
Definition validated_lookup (settings : DictionarySettings) (d : dict)
    (k' : value) : option value :=
  fold_left (store_step settings k') d None.

End schema_lookup.

(** * Properties *)

Import python.
Import schema_spec.

(** ** result.py *)

(** C7: for a payload other than [None], [ok(v)] is the one-entry mapping
    [{"ok": v}] and [error(c)] is the one-entry mapping [{"error": c}];
    [fail(message)] is [{"error": f}] with [f] a [Failure] whose message
    is [message]. *)
Theorem result_constructors_single_key (v c : value) (text : string) :
  v <> VNone ->
  c <> VNone ->
  result.ok v = Return (VDict [(VStr "ok", v)]) /\
  result.error c = Return (VDict [(VStr "error", c)]) /\
  result.fail text = VDict [(VStr "error", VException (Failure text))] /\
  message (Failure text) = text.
Proof.
  intros Hv Hc. repeat split.
  - destruct v; try reflexivity. contradiction.
  - destruct c; try reflexivity. contradiction.
Qed.

Lemma result_constructors_single_key_witness :
  result.ok (VInt 7) = Return (VDict [(VStr "ok", VInt 7)]) /\
  result.error (VStr "boom") = Return (VDict [(VStr "error", VStr "boom")]) /\
  result.fail "bad" = VDict [(VStr "error", VException (Failure "bad"))] /\
  message (Failure "bad") = "bad".
Proof.
  apply (result_constructors_single_key (VInt 7) (VStr "boom") "bad");
    discriminate.
Defined.

(** C8: [ok(v)] raises [TypeError] exactly when [v] is [None] and returns
    normally for every other argument; the same holds of [error(c)]. *)
Theorem result_constructors_reject_None (v : value) :
  ((exists text, result.ok v = Raise (TypeError text)) <-> v = VNone) /\
  ((exists r, result.ok v = Return r) <-> v <> VNone) /\
  ((exists text, result.error v = Raise (TypeError text)) <-> v = VNone) /\
  ((exists r, result.error v = Return r) <-> v <> VNone).
Proof.
  unfold result.ok, result.error.
  destruct v; cbn; repeat split;
    try (intros [? ?]; discriminate);
    try (intros; discriminate);
    try (intros; eexists; reflexivity);
    try congruence;
    try (intros [? ?] ?; discriminate).
Qed.

(** ** schema.py: [ArrayOf] *)

Section ArrayOf_facts.
Import schema.
Variable element : API.

Lemma ArrayOf_loop_valid (items : list value) :
  forall index results,
    Forall (validates element) items ->
    ArrayOf_loop element index items results
    = Result_ok (VList (results ++ map (fun x => ok (read element x)) items)).
Proof.
  induction items as [|x items IH]; intros index results Hall; cbn.
  - now rewrite app_nil_r.
  - inversion Hall as [|? ? Hx Hrest]; subst.
    unfold validates in Hx. rewrite Hx.
    rewrite IH by assumption. now rewrite <- app_assoc.
Qed.

Lemma ArrayOf_loop_first_failure (pre : list value) :
  forall index results x post e,
    Forall (validates element) pre ->
    error (read element x) = Some e ->
    ArrayOf_loop element index (pre ++ x :: post) results
    = Result_error (ElementError (index + List.length pre) e).
Proof.
  induction pre as [|y pre IH]; intros index results x post e Hall Hx; cbn.
  - rewrite Hx. now rewrite Nat.add_0_r.
  - inversion Hall as [|? ? Hy Hrest]; subst.
    unfold validates in Hy. rewrite Hy.
    rewrite (IH (S index) _ x post e Hrest Hx).
    now rewrite Nat.add_succ_r.
Qed.

Lemma ArrayOf_loop_no_error (items : list value) :
  forall index results,
    error (ArrayOf_loop element index items results) = None ->
    Forall (validates element) items.
Proof.
  induction items as [|x items IH]; intros index results Hok; cbn in *.
  - constructor.
  - destruct (error (read element x)) eqn:Hx; [discriminate|].
    constructor; [exact Hx | eapply IH; eassumption].
Qed.

End ArrayOf_facts.

(** C9: [ArrayOf.read] answers a [TypeError_] expecting ["array"] to every
    input that is not a list; on a list whose first failing element sits
    after the valid prefix [pre], it answers the [ElementError] with that
    element's index and cause, whatever follows the element; and it answers
    ok, with the validated values in input order, exactly when every element
    validates. *)
Theorem ArrayOf_read_spec (element : schema.API) :
  (forall input_value,
      is_list input_value = false ->
      schema.read (schema.ArrayOf element) input_value
      = schema.Result_error (schema.TypeError_ "array" input_value)) /\
  (forall pre x post e,
      Forall (validates element) pre ->
      schema.error (schema.read element x) = Some e ->
      schema.read (schema.ArrayOf element) (VList (pre ++ x :: post))
      = schema.Result_error (schema.ElementError (List.length pre) e)) /\
  (forall items,
      Forall (validates element) items <->
      schema.error (schema.read (schema.ArrayOf element) (VList items)) = None) /\
  (forall items,
      Forall (validates element) items ->
      schema.read (schema.ArrayOf element) (VList items)
      = schema.Result_ok
          (VList (map (fun x => schema.ok (schema.read element x)) items))).
Proof.
  split; [|split; [|split]].
  - intros input_value Hnot. destruct input_value; try reflexivity.
    discriminate.
  - intros pre x post e Hpre Hx. cbn.
    now rewrite (ArrayOf_loop_first_failure element pre 0 [] x post e Hpre Hx).
  - intros items. split.
    + intros Hall. cbn. now rewrite ArrayOf_loop_valid.
    + intros Hok. exact (ArrayOf_loop_no_error element items 0 [] Hok).
  - intros items Hall. cbn. now rewrite ArrayOf_loop_valid.
Qed.

Lemma ArrayOf_read_spec_witness :
  schema.read (schema.ArrayOf schema.Integer)
    (VList [VInt 1; VStr "a"; VInt 3; VStr "b"])
  = schema.Result_error
      (schema.ElementError 1 (schema.TypeError_ "integer" (VStr "a"))).
Proof.
  apply (proj1 (proj2 (ArrayOf_read_spec schema.Integer))
           [VInt 1] (VStr "a") [VInt 3; VStr "b"]).
  - repeat constructor.
  - reflexivity.
Defined.

(** ** schema.py: [Dictionary] *)

Section dict_facts.

Lemma key_eqb_sym (a b : value) : key_eqb a b = key_eqb b a.
Proof.
  destruct a, b; cbn; try reflexivity;
    auto using Z.eqb_sym, String.eqb_sym.
  destruct b, b0; reflexivity.
Qed.

Lemma dict_has_app (d1 d2 : dict) (k : value) :
  dict_has (d1 ++ d2)%list k = dict_has d1 k || dict_has d2 k.
Proof. unfold dict_has. apply existsb_app. Qed.

Lemma dict_has_false (d : dict) (k : value) :
  dict_has d k = false <->
  forall k' v', In (k', v') d -> key_eqb k' k = false.
Proof.
  unfold dict_has. induction d as [|[k0 v0] d IH]; cbn.
  - split; [intros _ ? ? []|reflexivity].
  - rewrite orb_false_iff, IH. split.
    + intros [H0 Hd] k' v' [Heq|Hin].
      * now inversion Heq; subst.
      * eapply Hd; eassumption.
    + intros H. split.
      * apply (H k0 v0). now left.
      * intros k' v' Hin. apply (H k' v'). now right.
Qed.

Lemma dict_set_fresh (d : dict) (k v : value) :
  dict_has d k = false -> dict_set d k v = (d ++ [(k, v)])%list.
Proof.
  unfold dict_has. induction d as [|[k0 v0] d IH]; cbn; [reflexivity|].
  rewrite orb_false_iff. intros [H0 Hd]. rewrite H0. now rewrite IH.
Qed.

Lemma dict_wf_unique (d : dict) :
  dict_wf d = true ->
  forall k1 v1 k2 v2,
    In (k1, v1) d -> In (k2, v2) d -> key_eqb k1 k2 = true ->
    (k1, v1) = (k2, v2).
Proof.
  induction d as [|[k0 v0] d IH]; intros Hwf k1 v1 k2 v2 H1 H2 Heq.
  - destruct H1.
  - cbn in Hwf. apply andb_prop in Hwf as [Hwf Hrest].
    apply andb_prop in Hwf as [_ Hnew]. apply negb_true_iff in Hnew.
    pose proof (proj1 (dict_has_false d k0) Hnew) as Hother.
    destruct H1 as [H1|H1], H2 as [H2|H2].
    + congruence.
    + inversion H1; subst. specialize (Hother _ _ H2).
      rewrite key_eqb_sym in Hother. congruence.
    + inversion H2; subst. specialize (Hother _ _ H1). congruence.
    + now apply IH.
Qed.

End dict_facts.

Section Dictionary_facts.
Import schema.
Variable settings : DictionarySettings.

Lemma Dictionary_loop_valid (items : dict) :
  forall result,
    dict_wf items = true ->
    (forall k v, In (k, v) items -> dict_has result k = false) ->
    (forall k v, In (k, v) items -> validates_unchanged (key settings) k) ->
    (forall k v, In (k, v) items -> validates (value_ settings) v) ->
    Dictionary_loop settings items result
    = Result_ok (VDict (result ++ validated_entries settings items)).
Proof.
  induction items as [|[k v] items IH]; intros result Hwf Hfresh Hkeys Hvals.
  - cbn. now rewrite app_nil_r.
  - cbn [Dictionary_loop validated_entries flat_map fst snd].
    cbn in Hwf. apply andb_prop in Hwf as [Hwf Hrest].
    apply andb_prop in Hwf as [_ Hnew]. apply negb_true_iff in Hnew.
    pose proof (Hkeys k v (or_introl eq_refl)) as Hk.
    pose proof (Hvals k v (or_introl eq_refl)) as Hv.
    unfold validates_unchanged in Hk. unfold validates in Hv.
    cbv zeta. rewrite !Hk. cbn [error ok Result_ok]. rewrite Hv.
    assert (Hkeys' : forall k' v', In (k', v') items ->
                                   validates_unchanged (key settings) k')
      by (intros; eapply Hkeys; right; eassumption).
    assert (Hvals' : forall k' v', In (k', v') items ->
                                   validates (value_ settings) v')
      by (intros; eapply Hvals; right; eassumption).
    destruct (is_None (ok (read (value_ settings) v))) eqn:Hnone.
    + rewrite IH; auto.
      intros; eapply Hfresh; right; eassumption.
    + rewrite dict_set_fresh by (apply (Hfresh k v); now left).
      rewrite IH; auto.
      * now rewrite <- app_assoc.
      * intros k' v' Hin. rewrite dict_has_app.
        rewrite (Hfresh k' v') by (now right). cbn.
        rewrite orb_false_r, key_eqb_sym.
        exact (proj1 (dict_has_false items k) Hnew k' v' Hin).
Qed.

Lemma validated_entries_In (items : dict) (k v' : value) :
  In (k, v') (validated_entries settings items) <->
  exists v, In (k, v) items /\
            v' = ok (read (value_ settings) v) /\ v' <> VNone.
Proof.
  unfold validated_entries. rewrite in_flat_map. split.
  - intros [[k0 v0] [Hin Hkeep]]. cbn in Hkeep.
    destruct (is_None (ok (read (value_ settings) v0))) eqn:Hnone;
      [contradiction|].
    destruct Hkeep as [Heq|[]]. inversion Heq; subst.
    exists v0. repeat split; auto.
    intros Hv. rewrite Hv in Hnone. discriminate.
  - intros (v & Hin & Hv & Hnot). exists (k, v). split; [assumption|].
    cbn. rewrite <- Hv.
    destruct v'; cbn; try (left; reflexivity). contradiction.
Qed.

End Dictionary_facts.

(** A schema of [shipped] hands a hashable key back unchanged when it
    accepts it. *)
Lemma shipped_keys_unchanged (s : schema.API) :
  shipped s ->
  forall k, hashable k = true -> validates s k -> validates_unchanged s k.
Proof.
  unfold validates, validates_unchanged.
  induction 1 as [| | | | |reader _ IH|reader _ IH|element _ _|st _ _ _ _];
    intros k Hk Hok; cbn in *.
  - discriminate.
  - reflexivity.
  - unfold schema.String_read_with in *.
    destruct (is_str k); [reflexivity|discriminate].
  - unfold schema.Boolean_read_with in *.
    destruct (is_bool k); [reflexivity|discriminate].
  - unfold schema.Integer_read_with in *.
    destruct (is_int k); [reflexivity|discriminate].
  - unfold schema.Nullable_read_with in *.
    destruct k; cbn in *; try reflexivity; try discriminate;
      (destruct (schema.error (schema.read reader _)) eqn:He;
       [cbn in Hok; congruence|now apply IH]).
  - unfold schema.Optional_read_with in *.
    destruct k; cbn in *; try reflexivity; try discriminate;
      (destruct (schema.error (schema.read reader _)) eqn:He;
       [cbn in Hok; congruence|now apply IH]).
  - destruct k; discriminate.
  - destruct k; discriminate.
Qed.

(** C10 as stated fails for a key schema that changes keys, since an
    entry is stored under its validated key ([result[key_result.ok] =
    value_result.ok]): every key and value of [{1: "a", -1: "b"}]
    validates, and the answer is [{1: "b"}], which lacks the input key
    [-1] although its validated value is not [None]. *)
Lemma Dictionary_changed_keys_counterexample :
  dict_wf schema_scenarios.signed = true /\
  (forall k v,
      In (k, v) schema_scenarios.signed ->
      validates (schema.key schema_scenarios.by_absolute) k /\
      validates (schema.value_ schema_scenarios.by_absolute) v) /\
  schema.read (schema.Dictionary schema_scenarios.by_absolute)
    (VDict schema_scenarios.signed)
  = schema.Result_ok (VDict [(VInt 1, VStr "b")]) /\
  ~ (forall k,
        dict_has [(VInt 1, VStr "b")] k = true <->
        exists v,
          In (k, v) schema_scenarios.signed /\
          schema.ok (schema.read (schema.value_ schema_scenarios.by_absolute) v)
          <> VNone).
Proof.
  split; [reflexivity|]. split; [|split; [reflexivity|]].
  - intros k v Hin. cbn in Hin.
    destruct Hin as [Hin|[Hin|[]]]; inversion Hin; split; reflexivity.
  - intros Hexact.
    assert (Hkept : dict_has [(VInt 1, VStr "b")] (VInt (-1)) = true).
    { apply Hexact. exists (VStr "b"). split; [right; left; reflexivity|].
      discriminate. }
    discriminate Hkept.
Qed.

(** C10, amended: on a dict whose keys validate unchanged and whose values
    all validate, [Dictionary.read] answers ok with a mapping that holds
    exactly the input keys whose validated value is not [None], each with
    its validated value: an entry that validates to [None] is dropped, not
    stored as [None]. *)
Theorem Dictionary_read_drops_None
    (settings : schema.DictionarySettings) (d : dict) :
  dict_wf d = true ->
  (forall k v, In (k, v) d -> validates_unchanged (schema.key settings) k) ->
  (forall k v, In (k, v) d -> validates (schema.value_ settings) v) ->
  schema.read (schema.Dictionary settings) (VDict d)
  = schema.Result_ok (VDict (validated_entries settings d)) /\
  (forall k v',
      In (k, v') (validated_entries settings d) <->
      exists v, In (k, v) d /\
                v' = schema.ok (schema.read (schema.value_ settings) v) /\
                v' <> VNone) /\
  (forall k v,
      In (k, v) d ->
      schema.ok (schema.read (schema.value_ settings) v) = VNone ->
      dict_has (validated_entries settings d) k = false).
Proof.
  intros Hwf Hkeys Hvals. split; [|split].
  - cbn. rewrite Dictionary_loop_valid; auto.
  - intros k v'. apply validated_entries_In.
  - intros k v Hin Hnone. apply dict_has_false. intros k' v' Hout.
    apply validated_entries_In in Hout as (v0 & Hin0 & Hv' & Hnot).
    destruct (key_eqb k' k) eqn:Heq; [|reflexivity].
    pose proof (dict_wf_unique d Hwf _ _ _ _ Hin0 Hin Heq) as Hsame.
    inversion Hsame; subst. congruence.
Qed.

Lemma Dictionary_read_drops_None_witness :
  schema.read
    (schema.dictionary (schema.Optional_ schema.Integer) None)
    (VDict [(VStr "a", VInt 1); (VStr "b", VNone); (VStr "c", VInt 3)])
  = schema.Result_ok (VDict [(VStr "a", VInt 1); (VStr "c", VInt 3)]).
Proof.
  refine (proj1 (Dictionary_read_drops_None
                   (schema.mkDictionarySettings
                      (schema.Optional_ schema.Integer) schema.String)
                   [(VStr "a", VInt 1); (VStr "b", VNone); (VStr "c", VInt 3)]
                   _ _ _)).
  - reflexivity.
  - intros k v Hin. cbn in Hin.
    repeat (destruct Hin as [Hin|Hin]; [inversion Hin; reflexivity|]).
    destruct Hin.
  - intros k v Hin. cbn in Hin.
    repeat (destruct Hin as [Hin|Hin]; [inversion Hin; reflexivity|]).
    destruct Hin.
Defined.

(** ** The parser algebra *)

Import capabilities validator validator_spec.

Lemma parse_decodes (p : CapabilityParser) (c : Capability) :
  match parse p c with
  | inl m => decodes p c = true /\ recognizes p (can c) = true
  | inr e =>
      decodes p c = false /\ invalid_capability e = c /\
      (name e = UnknownCapability <-> recognizes p (can c) = false)
  end.
Proof.
  induction p as [d|self IHself other IHother|self _ to IHto rule]; cbn.
  - destruct (String.eqb (descriptor_can d) (can c)) eqn:Hcan; cbn.
    + destruct (decode d c); cbn; repeat split; try discriminate; auto.
    + repeat split; auto.
  - destruct (parse self c) as [m1|e1].
    + destruct IHself as [Hd Hr]. rewrite Hd, Hr. auto.
    + destruct IHself as (Hd1 & Hc1 & Hn1).
      destruct (parse other c) as [m2|e2].
      * destruct IHother as [Hd Hr]. rewrite Hd, Hr, !orb_true_r. auto.
      * destruct IHother as (Hd2 & Hc2 & Hn2). rewrite Hd1, Hd2.
        destruct (name e1) eqn:Hname1.
        -- rewrite (proj1 Hn1 eq_refl). cbn. auto.
        -- repeat split; auto.
           ++ rewrite Hname1. discriminate.
           ++ intros Hor. apply orb_false_iff in Hor as [Hself _].
              apply Hn1 in Hself. discriminate.
  - exact IHto.
Qed.

(** C6: [parse] answers a [Match] or an [InvalidCapability] whose name is
    [UnknownCapability], exactly when the parser does not recognize the
    ability, or [MalformedCapability], exactly when it recognizes the
    ability and [with]/[nb] do not decode; there is no other failure. *)
Theorem parse_failure_kinds (p : CapabilityParser) (c : Capability) :
  match parse p c with
  | inl m => recognizes p (can c) = true /\ decodes p c = true
  | inr e =>
      invalid_capability e = c /\
      (name e = UnknownCapability \/ name e = MalformedCapability) /\
      (name e = UnknownCapability <-> recognizes p (can c) = false) /\
      (name e = MalformedCapability <->
       recognizes p (can c) = true /\ decodes p c = false)
  end.
Proof.
  pose proof (parse_decodes p c) as H.
  destruct (parse p c) as [m|e].
  - tauto.
  - destruct H as (Hd & Hc & Hn).
    split; [exact Hc|]. split; [destruct (name e); auto|].
    split; [exact Hn|]. split.
    + intros Hname. split; [|exact Hd].
      destruct (recognizes p (can c)); [reflexivity|].
      rewrite (proj2 Hn eq_refl) in Hname. discriminate.
    + intros [Hr _]. destruct (name e); [|reflexivity].
      rewrite (proj1 Hn eq_refl) in Hr. discriminate.
Qed.

(** The [store/add] parser of the scenarios on an ability it does not
    know, on caveats it cannot read, and on a capability it accepts. *)
Example parse_store_add_unknown :
  parse scenarios.store_add (mkCapability "store/remove" "did:key:space1" None)
  = inr (mkInvalidCapability UnknownCapability
           (mkCapability "store/remove" "did:key:space1" None)).
Proof. reflexivity. Qed.

Example parse_or_malformed :
  parse (or_ (capability_
                (mkDescriptor "store/add" schema.String schema.Never
                   scenarios.store_add_derives))
             scenarios.store_add)
        (mkCapability "store/list" "did:key:space1" None)
  = inr (mkInvalidCapability UnknownCapability
           (mkCapability "store/list" "did:key:space1" None))
  /\
  parse (or_ (capability_
                (mkDescriptor "store/add" schema.String schema.Never
                   scenarios.store_add_derives))
             (capability_
                (mkDescriptor "store/list" schema.String schema.Unknown
                   scenarios.store_add_derives)))
        (mkCapability "store/add" "did:key:space1" None)
  = inr (mkInvalidCapability MalformedCapability
           (mkCapability "store/add" "did:key:space1" None)).
Proof. split; reflexivity. Qed.

(** ** [Match.prune] *)

(** C5: [Match.prune] answers [None] for every match and every policy; it
    examines nothing and keeps nothing.  So it answers [None] also for the
    match of the grant that [did:key:A] issued on its own authority, a
    chain of one delegation whose issuer the policy accepts: no
    self-delegation that [CanIssue] rejects ends that chain, the match is
    one that pruning is to keep, and the answer promised for it is a
    [Match]. *)
Theorem prune_answers_None :
  (forall (self : Match) (config : CanIssue), prune self config = None) /\
  proofs scenarios.a_to_b = [] /\
  can_issue scenarios.root_policy (scenarios.claim 50)
    (issuer scenarios.a_to_b) = true /\
  prune (mkMatch [mkSource (scenarios.store_add_space1 None) scenarios.a_to_b]
           (scenarios.claim 50) [scenarios.a_to_b])
        scenarios.root_policy
  = None.
Proof. repeat split. Qed.

(** ** The validator *)

Section branch_facts.

Lemma first_authorized_None (branches : list Branch) :
  first_authorized branches = None <->
  forall a, ~ In (Authorized a) branches.
Proof.
  induction branches as [|b branches IH]; cbn.
  - split; [intros _ a []|reflexivity].
  - destruct b as [a0|e|e].
    + split; [discriminate|]. intros H. destruct (H a0). now left.
    + rewrite IH. split.
      * intros H a [Heq|Hin]; [discriminate|exact (H a Hin)].
      * intros H a Hin. apply (H a). now right.
    + rewrite IH. split.
      * intros H a [Heq|Hin]; [discriminate|exact (H a Hin)].
      * intros H a Hin. apply (H a). now right.
Qed.

Lemma first_authorized_Some (branches : list Branch) (a : Authorization) :
  In (Authorized a) branches -> exists a', first_authorized branches = Some a'.
Proof.
  intros Hin. destruct (first_authorized branches) as [a'|] eqn:Hfirst.
  - now exists a'.
  - destruct (proj1 (first_authorized_None branches) Hfirst a Hin).
Qed.

Lemma invalid_of_In (branches : list Branch) (e : InvalidProof) :
  In e (invalid_of branches) <-> In (Invalid e) branches.
Proof.
  induction branches as [|b branches IH]; cbn; [reflexivity|].
  destruct b as [a0|e0|e0]; cbn; rewrite IH; split; intros H.
  all: repeat match goal with
         | H : _ \/ _ |- _ => destruct H as [H|H]
         | H : Invalid _ = Invalid _ |- _ => inversion H; clear H; subst
         | H : Failed _ = Failed _ |- _ => inversion H; clear H; subst
         | H : ?x = ?y |- _ => first [discriminate H | subst]
         end; auto.
Qed.


Lemma recorded_length (branches : list Branch) :
  first_authorized branches = None ->
  List.length (invalid_of branches) + List.length (failed_of branches)
  = List.length branches.
Proof.
  induction branches as [|b branches IH]; cbn; [reflexivity|].
  destruct b as [a0|e|e]; cbn; intros Hnone.
  - discriminate.
  - now rewrite IH.
  - rewrite Nat.add_succ_r. now rewrite IH.
Qed.



End branch_facts.

Section walk_facts.
Variable parser : CapabilityParser.
Variable principal_parser : PrincipalParser.
Variable can_issue_hook : option CanIssue.
Variable proof_resolver : option ProofResolver.
Variable now : UTCUnixTimestamp.

Local Abbreviation authorize_ :=
  (authorize parser principal_parser can_issue_hook proof_resolver now).
Local Abbreviation proof_branches_ :=
  (proof_branches parser principal_parser can_issue_hook proof_resolver now).

(** [authorize] by the steps of section 4.2. *)
Lemma authorize_steps (depth : nat) (claim : ParsedCapability) (d : Delegation) :
  authorize_ depth claim d =
  let selected := select parser (sources d) in
  if carries_claim parser claim d then
    match time_violation now d with
    | Some e =>
        inr (mkUnauthorized (diagnosed parser claim d) (unknown selected) [e] [])
    | None =>
        if self_authoritative can_issue_hook claim d
        then inl (mkAuthorization d claim [] (issuer d) (audience d))
        else
          match first_authorized (proof_branches_ depth claim d) with
          | Some a => inl (mkAuthorization d claim [a] (issuer d) (audience d))
          | None =>
              inr (mkUnauthorized (diagnosed parser claim d) (unknown selected)
                     (invalid_of (proof_branches_ depth claim d))
                     (failed_of (proof_branches_ depth claim d)))
          end
    end
  else inr (mkUnauthorized (diagnosed parser claim d) (unknown selected) [] []).
Proof.
  unfold carries_claim, diagnosed, proof_branches, deeper.
  destruct depth; cbn [authorize];
    destruct (candidates parser claim (matches (select parser (sources d))))
      as [compatible escalated];
    cbn [fst snd]; destruct compatible; reflexivity.
Qed.

Lemma proofs_walked_steps (claim : ParsedCapability) (d : Delegation) :
  proofs_walked parser can_issue_hook now claim d = true <->
  carries_claim parser claim d = true /\
  time_violation now d = None /\
  self_authoritative can_issue_hook claim d = false.
Proof.
  unfold proofs_walked, carries_claim.
  destruct (fst (candidates parser claim (matches (select parser (sources d))))).
  - split; [discriminate|]. intros [H _]. discriminate.
  - destruct (time_violation now d).
    + split; [discriminate|]. intros (_ & H & _). discriminate.
    + rewrite negb_true_iff. tauto.
Qed.

Lemma authorize_walked (depth : nat) (claim : ParsedCapability) (d : Delegation) :
  proofs_walked parser can_issue_hook now claim d = true ->
  authorize_ depth claim d =
  match first_authorized (proof_branches_ depth claim d) with
  | Some a => inl (mkAuthorization d claim [a] (issuer d) (audience d))
  | None =>
      inr (mkUnauthorized (diagnosed parser claim d)
             (unknown (select parser (sources d)))
             (invalid_of (proof_branches_ depth claim d))
             (failed_of (proof_branches_ depth claim d)))
  end.
Proof.
  intros Hwalked. apply proofs_walked_steps in Hwalked as (Hc & Ht & Hs).
  rewrite authorize_steps. cbv zeta. now rewrite Hc, Ht, Hs.
Qed.

Lemma proof_branches_length (depth : nat) (claim : ParsedCapability)
    (d : Delegation) :
  List.length (proof_branches_ depth claim d) = List.length (proofs d).
Proof. apply length_map. Qed.

Lemma proof_branches_In (depth : nat) (claim : ParsedCapability)
    (d : Delegation) (p : Proof) :
  In p (proofs d) ->
  In (walk_proof principal_parser proof_resolver
        (deeper parser principal_parser can_issue_hook proof_resolver now depth)
        claim d p)
     (proof_branches_ depth claim d).
Proof. intros Hin. unfold proof_branches. now apply in_map. Qed.

Lemma walk_unresolved (depth : nat) (claim : ParsedCapability) (d : Delegation)
    (l : UCANLink) (e : UnavailableProof) :
  resolve_proof proof_resolver (Link l) = inr e ->
  walk_proof principal_parser proof_resolver
    (deeper parser principal_parser can_issue_hook proof_resolver now depth)
    claim d (Link l)
  = Invalid (ProofUnavailable e).
Proof. intros Hres. unfold walk_proof. now rewrite Hres. Qed.






End walk_facts.

Lemma validate_configured (claim : ParsedCapability) (d : Delegation)
    (options : ValidationOptions) (now : UTCUnixTimestamp) (max_depth : nat)
    (parser : CapabilityParser) (principal_parser : PrincipalParser) :
  options_capability options = Some parser ->
  principal options = Some principal_parser ->
  validate claim d options now max_depth
  = Return (authorize parser principal_parser (options_can_issue options)
              (resolver options) now max_depth claim d).
Proof. intros Hp Hq. unfold validate. now rewrite Hp, Hq. Qed.



(** The scenarios of section 8 on the model: A is authorized through two
    levels of proof, B fails with the escalation on the [B] to [C] link, C
    fails with the invalid audience. *)
Example scenario_A :
  validate (scenarios.claim 50) scenarios.b_to_c scenarios.options
    scenarios.now 8
  = Return
      (inl (mkAuthorization scenarios.b_to_c (scenarios.claim 50)
              [mkAuthorization scenarios.a_to_b (scenarios.claim 50) []
                 "did:key:A" "did:key:B"]
              "did:key:B" "did:key:C")).
Proof. reflexivity. Qed.

Example scenario_B :
  exists why,
    validate (scenarios.claim 1000) scenarios.b_to_c scenarios.options
      scenarios.now 8
    = Return
        (inr (mkUnauthorized
                [mkDelegationError
                   [CauseEscalatedDelegation
                      (mkEscalatedDelegation (scenarios.claim 1000)
                         (mkParsedCapability "store/add" "did:key:space1"
                            (Some (VDict [(VStr "size",
                                           VDict [(VStr "max", VInt 100)])])))
                         why)]
                   (CauseEscalatedDelegation
                      (mkEscalatedDelegation (scenarios.claim 1000)
                         (mkParsedCapability "store/add" "did:key:space1"
                            (Some (VDict [(VStr "size",
                                           VDict [(VStr "max", VInt 100)])])))
                         why))]
                [] [] [])).
Proof. eexists. reflexivity. Qed.

Example scenario_C :
  validate (scenarios.claim 50) scenarios.b2_to_c scenarios.options
    scenarios.now 8
  = Return
      (inr (mkUnauthorized [] []
              [ProofInvalidAudience scenarios.a_to_b mkInvalidAudience] [])).
Proof. reflexivity. Qed.

(** Expiration comes first (section 4.2, step 2a, and section 8): an
    expired grant fails though its issuer is self-authoritative for the
    claim, and the expiry is what is recorded. *)
Example expired_self_grant_unauthorized :
  can_issue scenarios.root_policy (scenarios.claim 50)
    (issuer scenarios.a_expired) = true /\
  validate (scenarios.claim 50) scenarios.a_expired scenarios.options
    scenarios.now 8
  = Return (inr (mkUnauthorized [] [] [ProofExpired scenarios.a_expired] [])).
Proof. split; reflexivity. Qed.



(** What a failed validation holds once the proofs are walked. *)
Lemma unauthorized_walk_records (claim : ParsedCapability) (d : Delegation)
    (options : ValidationOptions) (now : UTCUnixTimestamp) (max_depth : nat)
    (parser : CapabilityParser) (principal_parser : PrincipalParser)
    (u : Unauthorized) :
  options_capability options = Some parser ->
  principal options = Some principal_parser ->
  validate claim d options now max_depth = Return (inr u) ->
  proofs_walked parser (options_can_issue options) now claim d = true ->
  let branches :=
    proof_branches parser principal_parser (options_can_issue options)
      (resolver options) now max_depth claim d in
  invalid_proofs u = invalid_of branches /\
  failed_proofs u = failed_of branches /\
  recorded_proof_failures u = List.length (proofs d) /\
  first_authorized branches = None.
Proof.
  intros Hparser Hprincipal Hvalidate Hwalked branches.
  rewrite (validate_configured _ _ _ _ _ _ _ Hparser Hprincipal) in Hvalidate.
  rewrite (authorize_walked _ _ _ _ _ _ _ _ Hwalked) in Hvalidate.
  fold branches in Hvalidate.
  destruct (first_authorized branches) eqn:Hnone; [discriminate|].
  inversion Hvalidate as [Hu]. unfold recorded_proof_failures.
  cbn [invalid_proofs failed_proofs]. repeat split.
  transitivity (List.length branches);
    [exact (recorded_length branches Hnone)|apply proof_branches_length].
Qed.

(** Two proofs that fail independently leave two records. *)
Example two_bad_proofs_recorded :
  validate (scenarios.claim 50) scenarios.b_to_c_two_bad_proofs
    scenarios.options scenarios.now 8
  = Return
      (inr (mkUnauthorized [] []
              [ProofUnavailable (mkUnavailableProof "cid:missing");
               ProofInvalidAudience scenarios.a_to_d mkInvalidAudience]
              [])).
Proof. reflexivity. Qed.




(** C4: when a link among the proofs of the delegation under validation
    does not resolve, [validate] still returns; the failure is the
    [UnavailableProof] answered by the resolver, it takes the place of that
    proof's branch alone, the branches of the sibling proofs being what
    they are without it; if validation fails it is found in
    [Unauthorized.invalid_proofs], next to one record for each sibling;
    and a sibling proof that authorizes the claim makes validation
    succeed. *)
Theorem resolver_failure_isolated (claim : ParsedCapability) (d : Delegation)
    (options : ValidationOptions) (now : UTCUnixTimestamp) (max_depth : nat)
    (parser : CapabilityParser) (principal_parser : PrincipalParser)
    (l : UCANLink) (e : UnavailableProof) :
  options_capability options = Some parser ->
  principal options = Some principal_parser ->
  proofs_walked parser (options_can_issue options) now claim d = true ->
  In (Link l) (proofs d) ->
  resolve_proof (resolver options) (Link l) = inr e ->
  let walk :=
    walk_proof principal_parser (resolver options)
      (deeper parser principal_parser (options_can_issue options)
         (resolver options) now max_depth)
      claim d in
  (exists outcome, validate claim d options now max_depth = Return outcome) /\
  walk (Link l) = Invalid (ProofUnavailable e) /\
  (forall before after,
      proofs d = (before ++ Link l :: after)%list ->
      proof_branches parser principal_parser (options_can_issue options)
        (resolver options) now max_depth claim d
      = (map walk before ++ Invalid (ProofUnavailable e) :: map walk after)%list) /\
  (forall u,
      validate claim d options now max_depth = Return (inr u) ->
      In (ProofUnavailable e) (invalid_proofs u) /\
      recorded_proof_failures u = List.length (proofs d)) /\
  (forall p a,
      In p (proofs d) ->
      walk p = Authorized a ->
      exists a',
        validate claim d options now max_depth
        = Return (inl (mkAuthorization d claim [a'] (issuer d) (audience d)))).
Proof.
  intros Hparser Hprincipal Hwalked Hlink Hresolve walk.
  assert (Hbranch : walk (Link l) = Invalid (ProofUnavailable e))
    by (apply walk_unresolved; exact Hresolve).
  split; [|split; [exact Hbranch|split; [|split]]].
  - rewrite (validate_configured _ _ _ _ _ _ _ Hparser Hprincipal).
    eexists. reflexivity.
  - intros before after Hproofs. unfold proof_branches. fold walk.
    rewrite Hproofs, map_app. cbn [map]. now rewrite Hbranch.
  - intros u Hvalidate.
    destruct (unauthorized_walk_records claim d options now max_depth parser
                principal_parser u Hparser Hprincipal Hvalidate Hwalked)
      as (Hinvalid & _ & Hlength & _).
    split; [|exact Hlength].
    rewrite Hinvalid. apply invalid_of_In. unfold proof_branches. fold walk.
    rewrite <- Hbranch. now apply in_map.
  - intros p a Hin Hp.
    rewrite (validate_configured _ _ _ _ _ _ _ Hparser Hprincipal).
    rewrite (authorize_walked _ _ _ _ _ _ _ _ Hwalked).
    destruct (first_authorized_Some
                (proof_branches parser principal_parser
                   (options_can_issue options) (resolver options) now
                   max_depth claim d) a) as [a' Ha'].
    + rewrite <- Hp. unfold proof_branches. fold walk. now apply in_map.
    + exists a'. now rewrite Ha'.
Qed.

Lemma resolver_failure_isolated_witness :
  exists a',
    validate (scenarios.claim 50) scenarios.b_to_c_one_bad_proof
      scenarios.options scenarios.now 8
    = Return
        (inl (mkAuthorization scenarios.b_to_c_one_bad_proof
                (scenarios.claim 50) [a'] "did:key:B" "did:key:C")).
Proof.
  pose proof (resolver_failure_isolated (scenarios.claim 50)
                scenarios.b_to_c_one_bad_proof scenarios.options
                scenarios.now 8 scenarios.store_add
                (mkPrincipalParser mkVerifier) "cid:missing"
                (mkUnavailableProof "cid:missing")
                eq_refl eq_refl eq_refl (or_introl eq_refl) eq_refl) as H.
  cbv zeta in H. destruct H as (_ & _ & _ & _ & Hsibling).
  exact (Hsibling (Inline scenarios.a_to_b)
           (mkAuthorization scenarios.a_to_b (scenarios.claim 50) []
              "did:key:A" "did:key:B")
           (or_intror (or_introl eq_refl)) eq_refl).
Defined.

(** The unresolvable link is recorded and its sibling still authorizes. *)
Example one_bad_proof_authorized :
  validate (scenarios.claim 50) scenarios.b_to_c_one_bad_proof
    scenarios.options scenarios.now 8
  = Return
      (inl (mkAuthorization scenarios.b_to_c_one_bad_proof
              (scenarios.claim 50)
              [mkAuthorization scenarios.a_to_b (scenarios.claim 50) []
                 "did:key:A" "did:key:B"]
              "did:key:B" "did:key:C")).
Proof. reflexivity. Qed.

(** * Further properties of schema.py, result.py and base.py *)

(** ** [Optional_] and [Nullable] *)

Section optional_facts.
Variable reader : schema.API.
Variable v : python.value.

Lemma Optional_read :
  schema.read (schema.Optional_ reader) v
  = if is_None v then schema.Result_ok VNone else schema.read reader v.
Proof.
  cbn. unfold schema.Optional_read_with.
  destruct (is_None v); [reflexivity|].
  destruct (schema.error (schema.read reader v)); reflexivity.
Qed.

Lemma Nullable_read :
  schema.read (schema.Nullable reader) v
  = if is_None v then schema.Result_ok VNone
    else match schema.error (schema.read reader v) with
         | Some e =>
             schema.Result_error
               (schema.UnionError [e; schema.TypeError_ "null" v])
         | None => schema.read reader v
         end.
Proof. reflexivity. Qed.

Lemma Nullable_valid :
  schema.is_valid (schema.Nullable reader) v
  = (is_None v || schema.is_valid reader v).
Proof.
  unfold schema.is_valid. rewrite Nullable_read.
  destruct (is_None v); [reflexivity|]. cbn [orb].
  destruct (schema.error (schema.read reader v)) eqn:He; [reflexivity|].
  now rewrite He.
Qed.

Lemma Optional_valid :
  schema.is_valid (schema.Optional_ reader) v
  = (is_None v || schema.is_valid reader v).
Proof.
  unfold schema.is_valid. rewrite Optional_read.
  destruct (is_None v); reflexivity.
Qed.

End optional_facts.

(** X1: [Optional_] answers ok with [None] to [None] and hands every
    other input to its reader, whose result it returns as it is: the
    reader's error on a present value is never replaced by ok. *)
Theorem Optional_transparent (reader : schema.API) (v : python.value) :
  schema.read (schema.Optional_ reader) v
  = if is_None v then schema.Result_ok VNone else schema.read reader v.
Proof.
  cbn. unfold schema.Optional_read_with.
  destruct (is_None v) eqn:Hnone; [reflexivity|].
  destruct (schema.error (schema.read reader v)); reflexivity.
Qed.

(** X2: [Nullable] and [Optional_] accept the same values, [None] and what
    the reader accepts, and return the same result for them; on a value
    the reader rejects with [e], [Optional_] returns the reader's result
    and [Nullable] a [UnionError] of [e] and the mismatch with ["null"]. *)
Theorem Nullable_Optional_agree (reader : schema.API) (v : python.value) :
  schema.is_valid (schema.Nullable reader) v
  = (is_None v || schema.is_valid reader v) /\
  schema.is_valid (schema.Optional_ reader) v
  = (is_None v || schema.is_valid reader v) /\
  (schema.is_valid (schema.Nullable reader) v = true ->
   schema.read (schema.Nullable reader) v
   = schema.read (schema.Optional_ reader) v) /\
  (forall e,
      is_None v = false ->
      schema.error (schema.read reader v) = Some e ->
      schema.read (schema.Optional_ reader) v = schema.read reader v /\
      schema.read (schema.Nullable reader) v
      = schema.Result_error
          (schema.UnionError [e; schema.TypeError_ "null" v])).
Proof.
  split; [apply Nullable_valid|]. split; [apply Optional_valid|]. split.
  - rewrite Nullable_valid, Optional_read, Nullable_read.
    unfold schema.is_valid. destruct (is_None v); [reflexivity|]. cbn [orb].
    destruct (schema.error (schema.read reader v)); [discriminate|reflexivity].
  - intros e Hnone He. rewrite Optional_read, Nullable_read, Hnone, He.
    split; reflexivity.
Qed.

Lemma Nullable_Optional_agree_witness :
  schema.read (schema.Optional_ schema.Integer) (VStr "x")
  = schema.read schema.Integer (VStr "x") /\
  schema.read (schema.Nullable schema.Integer) (VStr "x")
  = schema.Result_error
      (schema.UnionError [schema.TypeError_ "integer" (VStr "x");
                          schema.TypeError_ "null" (VStr "x")]).
Proof.
  apply (proj2 (proj2 (proj2 (Nullable_Optional_agree schema.Integer
                                (VStr "x"))))); reflexivity.
Defined.

(** X3: making an optional or a nullable schema optional changes
    nothing, and a nullable of a nullable accepts what the nullable
    accepts. *)
Theorem Optional_absorbs (reader : schema.API) (v : python.value) :
  schema.read (schema.Optional_ (schema.Optional_ reader)) v
  = schema.read (schema.Optional_ reader) v /\
  schema.read (schema.Optional_ (schema.Nullable reader)) v
  = schema.read (schema.Nullable reader) v /\
  schema.is_valid (schema.Nullable (schema.Nullable reader)) v
  = schema.is_valid (schema.Nullable reader) v.
Proof.
  split; [|split].
  - rewrite !Optional_read. destruct (is_None v); reflexivity.
  - rewrite Optional_read, Nullable_read. destruct (is_None v); reflexivity.
  - rewrite !Nullable_valid. destruct (is_None v); reflexivity.
Qed.

(** ** [ArrayOf] *)

Section ArrayOf_more.
Variable element : schema.API.

Lemma ArrayOf_loop_error (items : list python.value) :
  forall index results err,
    schema.error (schema.ArrayOf_loop element index items results) = Some err ->
    exists pre x post e,
      items = (pre ++ x :: post)%list /\
      Forall (validates element) pre /\
      schema.error (schema.read element x) = Some e /\
      err = schema.ElementError (index + List.length pre) e.
Proof.
  induction items as [|y items IH]; intros index results err Herr; cbn in Herr.
  - discriminate.
  - destruct (schema.error (schema.read element y)) as [e|] eqn:Hy.
    + inversion Herr. exists [], y, items, e. cbn.
      rewrite Nat.add_0_r. repeat split; auto.
    + destruct (IH _ _ _ Herr) as (pre & x & post & e & Hitems & Hpre & Hx & He).
      exists (y :: pre), x, post, e. cbn. rewrite Nat.add_succ_r.
      split; [now rewrite Hitems|].
      split; [constructor; assumption|]. split; assumption.
Qed.

Lemma ArrayOf_loop_is_valid (items : list python.value) :
  forall index results,
    match schema.error (schema.ArrayOf_loop element index items results) with
    | None => true
    | Some _ => false
    end
    = forallb (schema.is_valid element) items.
Proof.
  induction items as [|y items IH]; intros index results; cbn.
  - reflexivity.
  - unfold schema.is_valid at 1.
    destruct (schema.error (schema.read element y)); cbn; [reflexivity|].
    apply IH.
Qed.

End ArrayOf_more.

(** X4: the only error [ArrayOf.read] answers to a list is an
    [ElementError]; its index lies within the list, the element at that
    index is the first one the element schema rejects, and its cause is
    that element's error. *)
Theorem ArrayOf_error_is_first_failure (element : schema.API)
    (items : list python.value) (err : schema.SchemaError) :
  schema.error (schema.read (schema.ArrayOf element) (VList items)) = Some err ->
  exists pre x post e,
    items = (pre ++ x :: post)%list /\
    Forall (validates element) pre /\
    schema.error (schema.read element x) = Some e /\
    err = schema.ElementError (List.length pre) e /\
    List.length pre < List.length items /\
    nth_error items (List.length pre) = Some x.
Proof.
  intros Herr. cbn in Herr.
  destruct (ArrayOf_loop_error element items 0 [] err Herr)
    as (pre & x & post & e & Hitems & Hpre & Hx & He).
  exists pre, x, post, e. repeat split; auto.
  - rewrite Hitems, length_app. cbn. lia.
  - rewrite Hitems, nth_error_app2 by lia. now rewrite Nat.sub_diag.
Qed.

Lemma ArrayOf_error_is_first_failure_witness :
  exists pre x post e,
    [VInt 1; VInt 2; VStr "a"] = (pre ++ x :: post)%list /\
    Forall (validates schema.Integer) pre /\
    schema.error (schema.read schema.Integer x) = Some e /\
    schema.ElementError 2 (schema.TypeError_ "integer" (VStr "a"))
    = schema.ElementError (List.length pre) e /\
    List.length pre < 3 /\
    nth_error [VInt 1; VInt 2; VStr "a"] (List.length pre) = Some x.
Proof.
  apply (ArrayOf_error_is_first_failure schema.Integer
           [VInt 1; VInt 2; VStr "a"]).
  reflexivity.
Defined.

(** X5: a list is valid for [ArrayOf] exactly when each of its elements
    is valid for the element schema, so the empty list is valid for every
    [ArrayOf]; and a valid list is answered by a list of the same length. *)
Theorem ArrayOf_valid_elementwise (element : schema.API)
    (items : list python.value) :
  schema.is_valid (schema.ArrayOf element) (VList items)
  = forallb (schema.is_valid element) items /\
  schema.read (schema.ArrayOf element) (VList []) = schema.Result_ok (VList []) /\
  (schema.is_valid (schema.ArrayOf element) (VList items) = true ->
   exists out,
     schema.ok (schema.read (schema.ArrayOf element) (VList items)) = VList out /\
     List.length out = List.length items).
Proof.
  split; [|split].
  - unfold schema.is_valid at 1. cbn. apply ArrayOf_loop_is_valid.
  - reflexivity.
  - unfold schema.is_valid. intros Hvalid.
    destruct (schema.error (schema.read (schema.ArrayOf element) (VList items)))
      eqn:Herr; [discriminate|].
    pose proof (ArrayOf_loop_no_error element items 0 [] Herr) as Hall.
    cbn. rewrite (ArrayOf_loop_valid element items 0 [] Hall). cbn.
    eexists. split; [reflexivity|apply length_map].
Qed.

Lemma ArrayOf_valid_elementwise_witness :
  exists out,
    schema.ok (schema.read (schema.ArrayOf schema.Integer)
                 (VList [VInt 1; VBool true]))
    = VList out /\
    List.length out = 2.
Proof.
  apply (proj2 (proj2 (ArrayOf_valid_elementwise schema.Integer
                         [VInt 1; VBool true]))).
  reflexivity.
Defined.

(** X6: a list whose elements the element schema returns unchanged is
    returned unchanged by [ArrayOf]; so [ArrayOf(Unknown)] is the identity
    on lists. *)
Theorem ArrayOf_unchanged (element : schema.API) (items : list python.value) :
  (forall x, In x items -> validates_unchanged element x) ->
  schema.read (schema.ArrayOf element) (VList items)
  = schema.Result_ok (VList items).
Proof.
  intros Hsame. cbn.
  rewrite ArrayOf_loop_valid.
  - cbn. do 2 f_equal. rewrite <- (map_id items) at 2.
    apply map_ext_in. intros x Hin. now rewrite (Hsame x Hin).
  - apply Forall_forall. intros x Hin. unfold validates.
    now rewrite (Hsame x Hin).
Qed.

Lemma ArrayOf_unchanged_witness :
  schema.read (schema.ArrayOf schema.Unknown)
    (VList [VNone; VList [VInt 1]; VStr "a"])
  = schema.Result_ok (VList [VNone; VList [VInt 1]; VStr "a"]).
Proof.
  apply ArrayOf_unchanged. intros x Hin. reflexivity.
Defined.

(** ** [Dictionary] *)

Section Dictionary_more.
Variable settings : schema.DictionarySettings.

(** An entry validates when its key and its value do. *)
Let entry_validates (entry : python.value * python.value) : Prop :=
  validates (schema.key settings) (fst entry) /\
  validates (schema.value_ settings) (snd entry).

Lemma Dictionary_loop_skip (pre : dict) :
  forall rest result,
    Forall entry_validates pre ->
    exists result',
      schema.Dictionary_loop settings (pre ++ rest)%list result
      = schema.Dictionary_loop settings rest result'.
Proof.
  induction pre as [|[k v] pre IH]; intros rest result Hpre.
  - exists result. reflexivity.
  - inversion Hpre as [|? ? [Hk Hv] Hrest]; subst. cbn in Hk, Hv.
    unfold validates in Hk, Hv. cbn [app schema.Dictionary_loop]. cbv zeta.
    rewrite Hk, Hv.
    destruct (is_None (schema.ok (schema.read (schema.value_ settings) v)));
      apply IH; assumption.
Qed.

Lemma Dictionary_loop_is_valid (items : dict) :
  forall result,
    match schema.error (schema.Dictionary_loop settings items result) with
    | None => true
    | Some _ => false
    end
    = forallb (fun entry =>
                 schema.is_valid (schema.key settings) (fst entry)
                 && schema.is_valid (schema.value_ settings) (snd entry))
        items.
Proof.
  induction items as [|[k v] items IH]; intros result.
  - reflexivity.
  - cbn [schema.Dictionary_loop forallb fst snd]. cbv zeta.
    unfold schema.is_valid at 1 2.
    destruct (schema.error (schema.read (schema.key settings) k));
      [reflexivity|].
    destruct (schema.error (schema.read (schema.value_ settings) v));
      [reflexivity|]. cbn [andb].
    destruct (is_None (schema.ok (schema.read (schema.value_ settings) v)));
      apply IH.
Qed.

Lemma dict_set_In (d : dict) (k v k' v' : python.value) :
  In (k', v') (dict_set d k v) ->
  In (k', v') d \/ (v' = v /\ (k' = k \/ exists v0, In (k', v0) d)).
Proof.
  induction d as [|[k0 v0] d IH]; cbn.
  - intros [Heq|[]]. inversion Heq. right. auto.
  - destruct (key_eqb k0 k).
    + intros [Heq|Hin].
      * inversion Heq; subst. right. split; [reflexivity|].
        right. exists v0. now left.
      * left. now right.
    + intros [Heq|Hin].
      * left. now left.
      * destruct (IH Hin) as [Hold|[Hv [Hk|[v1 Hv1]]]].
        -- left. now right.
        -- right. auto.
        -- right. split; [assumption|]. right. exists v1. now right.
Qed.

Lemma dict_set_length (d : dict) (k v : python.value) :
  List.length (dict_set d k v) <= S (List.length d).
Proof.
  induction d as [|[k0 v0] d IH]; cbn; [lia|].
  destruct (key_eqb k0 k); cbn; lia.
Qed.

(** What the result dict holds while the loop runs over a part of [all]. *)
Let holds_validated (all result : dict) : Prop :=
  forall k' v',
    In (k', v') result ->
    v' <> VNone /\
    (exists k v, In (k, v) all /\ k' = schema.ok (schema.read (schema.key settings) k)) /\
    (exists k v, In (k, v) all /\ v' = schema.ok (schema.read (schema.value_ settings) v)).

Lemma Dictionary_loop_output (all items : dict) :
  forall result,
    (forall entry, In entry items -> In entry all) ->
    holds_validated all result ->
    schema.error (schema.Dictionary_loop settings items result) = None ->
    exists out,
      schema.ok (schema.Dictionary_loop settings items result) = VDict out /\
      List.length out <= List.length result + List.length items /\
      holds_validated all out.
Proof.
  induction items as [|[k v] items IH]; intros result Hsub Hinv Hok.
  - exists result. split; [reflexivity|]. split; [cbn; lia|exact Hinv].
  - cbn [schema.Dictionary_loop] in *. cbv zeta in *.
    destruct (schema.error (schema.read (schema.key settings) k));
      [discriminate|].
    destruct (schema.error (schema.read (schema.value_ settings) v));
      [discriminate|].
    assert (Hsub' : forall entry, In entry items -> In entry all)
      by (intros entry Hin; apply Hsub; now right).
    destruct (is_None (schema.ok (schema.read (schema.value_ settings) v)))
      eqn:Hnone.
    + destruct (IH result Hsub' Hinv Hok) as (out & Hout & Hlen & Hheld).
      exists out. cbn [List.length].
      split; [exact Hout|]. split; [lia|exact Hheld].
    + assert (Hinv' :
                holds_validated all
                  (dict_set result
                     (schema.ok (schema.read (schema.key settings) k))
                     (schema.ok (schema.read (schema.value_ settings) v)))).
      { intros k' v' Hin.
        destruct (dict_set_In _ _ _ _ _ Hin) as [Hold|[Hv Hk]].
        - exact (Hinv k' v' Hold).
        - split; [|split].
          + rewrite Hv. intros Heq. rewrite Heq in Hnone. discriminate.
          + destruct Hk as [Hk|[v0 Hv0]].
            * exists k, v. split; [apply Hsub; now left|exact Hk].
            * exact (proj1 (proj2 (Hinv k' v0 Hv0))).
          + exists k, v. split; [apply Hsub; now left|exact Hv]. }
      destruct (IH _ Hsub' Hinv' Hok) as (out & Hout & Hlen & Hheld).
      exists out. cbn [List.length].
      split; [exact Hout|]. split; [|exact Hheld].
      pose proof (dict_set_length result
                    (schema.ok (schema.read (schema.key settings) k))
                    (schema.ok (schema.read (schema.value_ settings) v))).
      lia.
Qed.

End Dictionary_more.

(** X7: [Dictionary.read] answers a [TypeError_] expecting ["dictionary"]
    to every input that is not a dict; on a dict, after entries that
    validate, an entry whose key is rejected gives the [FieldError] with
    that input key and the key's error, whatever its value is, and an
    entry whose key validates and whose value is rejected gives the
    [FieldError] with the input key and the value's error; what follows
    the entry is not looked at. *)
Theorem Dictionary_first_failure (settings : schema.DictionarySettings)
    (pre : dict) (k v : python.value) (post : dict) :
  Forall (fun entry =>
            validates (schema.key settings) (fst entry) /\
            validates (schema.value_ settings) (snd entry))
    pre ->
  (forall x,
      is_dict x = false ->
      schema.read (schema.Dictionary settings) x
      = schema.Result_error (schema.TypeError_ "dictionary" x)) /\
  (forall e,
      schema.error (schema.read (schema.key settings) k) = Some e ->
      schema.read (schema.Dictionary settings) (VDict (pre ++ (k, v) :: post))
      = schema.Result_error (schema.FieldError k e)) /\
  (forall e,
      validates (schema.key settings) k ->
      schema.error (schema.read (schema.value_ settings) v) = Some e ->
      schema.read (schema.Dictionary settings) (VDict (pre ++ (k, v) :: post))
      = schema.Result_error (schema.FieldError k e)).
Proof.
  intros Hpre. split; [|split].
  - intros x Hx. destruct x; try reflexivity. discriminate.
  - intros e Hk. cbn.
    destruct (Dictionary_loop_skip settings pre ((k, v) :: post) [] Hpre)
      as [result Hskip].
    rewrite Hskip. cbn. now rewrite Hk.
  - intros e Hk Hv. cbn.
    destruct (Dictionary_loop_skip settings pre ((k, v) :: post) [] Hpre)
      as [result Hskip].
    rewrite Hskip. cbn. unfold validates in Hk. now rewrite Hk, Hv.
Qed.

Lemma Dictionary_first_failure_witness :
  schema.read (schema.dictionary schema.Integer None)
    (VDict [(VStr "a", VInt 1); (VInt 2, VStr "x"); (VStr "c", VStr "y")])
  = schema.Result_error
      (schema.FieldError (VInt 2) (schema.TypeError_ "string" (VInt 2))).
Proof.
  refine (proj1 (proj2 (Dictionary_first_failure
                          (schema.mkDictionarySettings schema.Integer
                             schema.String)
                          [(VStr "a", VInt 1)] (VInt 2) (VStr "x")
                          [(VStr "c", VStr "y")] _))
            (schema.TypeError_ "string" (VInt 2)) eq_refl).
  repeat constructor.
Defined.

(** X8: whatever the key and value schemas are, a mapping that
    [Dictionary.read] answers ok with holds no [None] value and no more
    entries than the input; each of its keys is the validated key of an
    input entry and each of its values the validated value of one. *)
Theorem Dictionary_output_validated (settings : schema.DictionarySettings)
    (x : python.value) :
  schema.error (schema.read (schema.Dictionary settings) x) = None ->
  exists d out,
    x = VDict d /\
    schema.ok (schema.read (schema.Dictionary settings) x) = VDict out /\
    List.length out <= List.length d /\
    forall k' v',
      In (k', v') out ->
      v' <> VNone /\
      (exists k v,
          In (k, v) d /\
          k' = schema.ok (schema.read (schema.key settings) k)) /\
      (exists k v,
          In (k, v) d /\
          v' = schema.ok (schema.read (schema.value_ settings) v)).
Proof.
  intros Hok. destruct x as [| | | | |d|]; try discriminate.
  cbn in Hok.
  destruct (Dictionary_loop_output settings d d [] (fun _ H => H)
              (fun _ _ H => match H with end) Hok)
    as (out & Hout & Hlen & Hheld).
  exists d, out. repeat split; try assumption; try (apply (Hheld k' v' H)).
Qed.

Lemma Dictionary_output_validated_witness :
  exists d out,
    VDict [(VStr "a", VNone); (VStr "b", VInt 2)] = VDict d /\
    schema.ok (schema.read
                 (schema.dictionary (schema.Nullable schema.Integer) None)
                 (VDict [(VStr "a", VNone); (VStr "b", VInt 2)]))
    = VDict out /\
    List.length out <= List.length d /\
    forall k' v',
      In (k', v') out ->
      v' <> VNone /\
      (exists k v,
          In (k, v) d /\ k' = schema.ok (schema.read schema.String k)) /\
      (exists k v,
          In (k, v) d /\
          v' = schema.ok (schema.read (schema.Nullable schema.Integer) v)).
Proof.
  apply (Dictionary_output_validated
           (schema.mkDictionarySettings (schema.Nullable schema.Integer)
              schema.String)
           (VDict [(VStr "a", VNone); (VStr "b", VInt 2)])).
  reflexivity.
Defined.

(** X9: a dict is valid for [Dictionary] exactly when every key is valid
    for the key schema and every value for the value schema; with the
    default key schema of [dictionary], exactly when every key is a [str]
    and every value is valid. *)
Theorem Dictionary_valid_entrywise (settings : schema.DictionarySettings)
    (value_schema : schema.API) (d : dict) :
  schema.is_valid (schema.Dictionary settings) (VDict d)
  = forallb (fun entry =>
               schema.is_valid (schema.key settings) (fst entry)
               && schema.is_valid (schema.value_ settings) (snd entry))
      d /\
  schema.is_valid (schema.dictionary value_schema None) (VDict d)
  = forallb (fun entry =>
               is_str (fst entry) && schema.is_valid value_schema (snd entry))
      d.
Proof.
  split.
  - unfold schema.is_valid at 1. cbn. apply Dictionary_loop_is_valid.
  - unfold schema.dictionary, schema.is_valid at 1. cbn.
    rewrite Dictionary_loop_is_valid. cbn [schema.key schema.value_].
    induction d as [|[k v] d IH]; [reflexivity|].
    cbn [forallb fst snd]. rewrite IH. do 2 f_equal.
    unfold schema.is_valid. cbn. unfold schema.String_read_with.
    destruct (is_str k); reflexivity.
Qed.

(** ** Results of the schemas of schema.py, [from_value], the basic types *)

Lemma ArrayOf_loop_error_no_value (element : schema.API)
    (items : list python.value) :
  forall index results e,
    schema.error (schema.ArrayOf_loop element index items results) = Some e ->
    schema.ok (schema.ArrayOf_loop element index items results) = VNone.
Proof.
  induction items as [|y items IH]; intros index results e He; cbn in *.
  - discriminate.
  - destruct (schema.error (schema.read element y)); [reflexivity|].
    eapply IH; eassumption.
Qed.

Lemma Dictionary_loop_error_no_value (settings : schema.DictionarySettings)
    (items : dict) :
  forall result e,
    schema.error (schema.Dictionary_loop settings items result) = Some e ->
    schema.ok (schema.Dictionary_loop settings items result) = VNone.
Proof.
  induction items as [|[k v] items IH]; intros result e He;
    cbn [schema.Dictionary_loop] in *; cbv zeta in *.
  - discriminate.
  - destruct (schema.error (schema.read (schema.key settings) k));
      [reflexivity|].
    destruct (schema.error (schema.read (schema.value_ settings) v));
      [reflexivity|].
    destruct (is_None (schema.ok (schema.read (schema.value_ settings) v)));
      eapply IH; eassumption.
Qed.

(** X10: a result of a schema built from [Never], [Unknown], [String],
    [Boolean], [Integer], [Nullable], [Optional_], [ArrayOf] and
    [Dictionary] never holds both an error and a value: when [error] is
    set, [ok] is [None]. *)
Theorem shipped_error_without_value (s : schema.API) :
  shipped s ->
  forall v e,
    schema.error (schema.read s v) = Some e ->
    schema.ok (schema.read s v) = VNone.
Proof.
  induction 1 as [| | | | |reader _ IH|reader _ IH|element _ _|st _ _ _ _];
    intros v e He.
  - reflexivity.
  - discriminate.
  - cbn in *. unfold schema.String_read_with in *.
    destruct (is_str v); [discriminate|reflexivity].
  - cbn in *. unfold schema.Boolean_read_with in *.
    destruct (is_bool v); [discriminate|reflexivity].
  - cbn in *. unfold schema.Integer_read_with in *.
    destruct (is_int v); [discriminate|reflexivity].
  - rewrite Nullable_read in *. destruct (is_None v); [discriminate|].
    destruct (schema.error (schema.read reader v)) eqn:Hr; [reflexivity|].
    congruence.
  - rewrite Optional_read in *. destruct (is_None v); [discriminate|].
    eapply IH; eassumption.
  - cbn in *. destruct v; try reflexivity.
    eapply ArrayOf_loop_error_no_value; eassumption.
  - cbn in *. destruct v; try reflexivity.
    eapply Dictionary_loop_error_no_value; eassumption.
Qed.

Lemma shipped_error_without_value_witness :
  schema.ok (schema.read (schema.Optional_ (schema.ArrayOf schema.Integer))
               (VList [VInt 1; VStr "a"]))
  = VNone.
Proof.
  apply (shipped_error_without_value
           (schema.Optional_ (schema.ArrayOf schema.Integer))
           (shipped_Optional _ (shipped_ArrayOf _ shipped_Integer))
           (VList [VInt 1; VStr "a"])
           (schema.ElementError 1 (schema.TypeError_ "integer" (VStr "a")))).
  reflexivity.
Defined.

(** X11: [from_value] raises the error of [read] when there is one and
    returns the validated value otherwise, whatever the schema; for a
    schema built from [Never], [Unknown], [String], [Boolean], [Integer],
    [Nullable], [Optional_], [ArrayOf] and [Dictionary], and for [None], a
    bool, an int or a str, what it returns is the value it was given.
    [Number] is not one of these: it returns [float(value)]. *)
Theorem from_value_checks (s : schema.API) (v : python.value) :
  (forall e,
      schema.error (schema.read s v) = Some e ->
      schema_api.from_value s v = schema_api.RaisedSchemaError e) /\
  (schema.is_valid s v = true ->
   schema_api.from_value s v = schema_api.Converted (schema.ok (schema.read s v))) /\
  (shipped s -> hashable v = true -> schema.is_valid s v = true ->
   schema_api.from_value s v = schema_api.Converted v).
Proof.
  unfold schema_api.from_value, schema.is_valid. split; [|split].
  - intros e He. now rewrite He.
  - destruct (schema.error (schema.read s v)); [discriminate|reflexivity].
  - intros Hs Hv Hvalid.
    destruct (schema.error (schema.read s v)) eqn:He; [discriminate|].
    now rewrite (shipped_keys_unchanged s Hs v Hv He).
Qed.

Lemma from_value_checks_witness :
  schema_api.from_value (schema.Nullable schema.Integer) (VInt 5)
  = schema_api.Converted (VInt 5).
Proof.
  apply (proj2 (proj2 (from_value_checks (schema.Nullable schema.Integer)
                         (VInt 5))));
    [exact (shipped_Nullable _ shipped_Integer)|reflexivity|reflexivity].
Defined.

(** X12: [Integer] accepts every value that [Boolean] accepts, with the
    same result, since a bool is an int; [String] and [Integer] accept no
    common value; and each of the three returns an accepted value
    unchanged. *)
Theorem basic_types_accept (v : python.value) :
  (schema.is_valid schema.Boolean v = true ->
   schema.read schema.Integer v = schema.read schema.Boolean v) /\
  schema.is_valid schema.String v && schema.is_valid schema.Integer v = false /\
  (forall s,
      s = schema.String \/ s = schema.Boolean \/ s = schema.Integer ->
      schema.is_valid s v = true ->
      schema.read s v = schema.Result_ok v).
Proof.
  split; [|split].
  - destruct v; cbn; intros H; try discriminate; reflexivity.
  - destruct v; reflexivity.
  - intros s [Hs|[Hs|Hs]]; subst s; destruct v; cbn; intros H;
      try discriminate; reflexivity.
Qed.

Lemma basic_types_accept_witness :
  schema.read schema.Integer (VBool true) = schema.read schema.Boolean (VBool true).
Proof.
  apply (proj1 (basic_types_accept (VBool true))). reflexivity.
Defined.

(** ** [to_string] and [HTTPError] *)

Section rendering_facts.

Lemma str_int_parses (n : Z) :
  NilZero.int_of_string (schema_api.str_int n) = Some (Z.to_int n).
Proof.
  unfold schema_api.str_int. apply NilZero.isi.
  - destruct n; cbn; try discriminate.
    intros H. inversion H as [Hp]. exact (DecimalPos.Unsigned.to_uint_nonnil p Hp).
  - destruct n; cbn; try discriminate.
    intros H. inversion H as [Hp]. exact (DecimalPos.Unsigned.to_uint_nonnil p Hp).
Qed.

Lemma str_int_inj (a b : Z) :
  schema_api.str_int a = schema_api.str_int b -> a = b.
Proof.
  intros H. pose proof (str_int_parses a) as Ha. rewrite H in Ha.
  rewrite str_int_parses in Ha. inversion Ha as [Hab].
  rewrite <- (DecimalZ.of_to a), <- (DecimalZ.of_to b). now rewrite Hab.
Qed.

Lemma str_int_not_quoted (n : Z) (s : string) :
  schema_api.str_int n <> (schema_api.quote ++ s)%string.
Proof.
  intros H. pose proof (str_int_parses n) as Hn. rewrite H in Hn.
  cbn in Hn. destruct (NilEmpty.uint_of_string s); discriminate.
Qed.

Lemma append_quote_inj (s t : string) :
  (s ++ schema_api.quote)%string = (t ++ schema_api.quote)%string -> s = t.
Proof.
  revert t. induction s as [|c s IH]; intros [|d t] H; cbn in H.
  - reflexivity.
  - inversion H as [[Hc Ht]]. destruct t; discriminate.
  - inversion H as [[Hc Hs]]. destruct s; discriminate.
  - inversion H as [[Hc Hs]]. f_equal. now apply IH.
Qed.

End rendering_facts.

(** X13: [to_string] tells apart any two different values among [None],
    the bools, the ints and the strs: a bool is rendered in lower case, an
    int by its decimal digits and a str between double quotes, so that no
    two of them are rendered alike. *)
Theorem to_string_scalars_injective (a b : python.value) :
  hashable a = true ->
  hashable b = true ->
  schema_api.to_string a = schema_api.to_string b ->
  a = b.
Proof.
  intros Ha Hb Heq.
  destruct a as [|x|x|x| | |]; try discriminate Ha;
    destruct b as [|y|y|y| | |]; try discriminate Hb; cbn in Heq.
  - reflexivity.
  - destruct y; discriminate.
  - pose proof (str_int_parses y) as Hy. rewrite <- Heq in Hy. discriminate.
  - discriminate.
  - destruct x; discriminate.
  - destruct x, y; try discriminate; reflexivity.
  - pose proof (str_int_parses y) as Hy. rewrite <- Heq in Hy.
    destruct x; discriminate.
  - destruct x; discriminate.
  - pose proof (str_int_parses x) as Hx. rewrite Heq in Hx. discriminate.
  - pose proof (str_int_parses x) as Hx. rewrite Heq in Hx.
    destruct y; discriminate.
  - f_equal. now apply str_int_inj.
  - exfalso. exact (str_int_not_quoted x _ Heq).
  - discriminate.
  - destruct y; discriminate.
  - exfalso. exact (str_int_not_quoted y _ (eq_sym Heq)).
  - inversion Heq as [Hst]. f_equal. now apply append_quote_inj.
Qed.

Lemma to_string_scalars_injective_witness :
  VInt 1 = VInt 1.
Proof.
  apply (to_string_scalars_injective (VInt 1) (VInt 1)); reflexivity.
Defined.

(** X14: the text of an [HTTPError] is never empty: it is the message
    when a non-empty message is given, and ["HTTP "] followed by the
    status in decimal otherwise, also for the empty message, which the
    [message] attribute still holds; the default texts of two statuses
    differ. *)
Theorem HTTPError_text (status : Z) (message : option string) :
  base.text (base.HTTPError_init status message) <> "" /\
  base.message (base.HTTPError_init status message) = message /\
  base.status (base.HTTPError_init status message) = status /\
  (forall m,
      message = Some m -> m <> "" ->
      base.text (base.HTTPError_init status message) = m) /\
  (message = None \/ message = Some "" ->
   base.text (base.HTTPError_init status message)
   = ("HTTP " ++ schema_api.str_int status)%string) /\
  (forall other,
      base.text (base.HTTPError_init status None)
      = base.text (base.HTTPError_init other None) ->
      status = other).
Proof.
  repeat split.
  - destruct message as [[|c m]|]; cbn; discriminate.
  - intros m Hm Hne. subst message. destruct m; [contradiction|reflexivity].
  - intros [H|H]; subst message; reflexivity.
  - intros other H. cbn in H. inversion H as [Hs]. now apply str_int_inj.
Qed.

Lemma HTTPError_text_witness :
  base.text (base.HTTPError_init 404 (Some "")) = "HTTP 404".
Proof.
  apply (proj1 (proj2 (proj2 (proj2 (proj2
           (HTTPError_text 404 (Some ""))))))). right. reflexivity.
Defined.

(** ** [Never], and lookups in the answer of [Dictionary] *)

(** X15: [Never] rejects every value, [None] included; so a nullable
    [Never] accepts [None] alone, an array of [Never] the empty list
    alone, and a dictionary whose values are [Never] the empty dict
    alone. *)
Theorem Never_rejects (v : python.value) (items : list python.value)
    (key_schema : schema.API) (d : dict) :
  schema.is_valid schema.Never v = false /\
  schema.is_valid (schema.Nullable schema.Never) v = is_None v /\
  (schema.is_valid (schema.ArrayOf schema.Never) (VList items) = true <->
   items = []) /\
  (schema.is_valid
     (schema.Dictionary (schema.mkDictionarySettings schema.Never key_schema))
     (VDict d) = true <->
   d = []).
Proof.
  split; [reflexivity|]. split; [|split].
  - rewrite Nullable_valid. cbn. apply orb_false_r.
  - unfold schema.is_valid at 1. cbn. rewrite ArrayOf_loop_is_valid.
    destruct items; cbn; split; intros H; try reflexivity; discriminate.
  - unfold schema.is_valid at 1. cbn. rewrite Dictionary_loop_is_valid.
    destruct d as [|[k x] d]; cbn; split; intros H; try reflexivity;
      try discriminate.
    rewrite andb_false_r in H. discriminate.
Qed.

Section lookup_facts.

Lemma key_eqb_trans (a b c : python.value) :
  key_eqb a b = true -> key_eqb b c = true -> key_eqb a c = true.
Proof.
  destruct a, b; cbn; try discriminate; destruct c; cbn; try discriminate;
    intros H1 H2;
    repeat match goal with
      | H : Bool.eqb _ _ = true |- _ => apply Bool.eqb_prop in H; subst
      | H : (_ =? _)%Z = true |- _ => apply Z.eqb_eq in H; subst
      | H : (_ =? _)%string = true |- _ => apply String.eqb_eq in H; subst
      end;
    try reflexivity; try apply Z.eqb_refl; try apply String.eqb_refl;
    try apply Bool.eqb_reflx;
    try (destruct b; reflexivity); try (destruct b0; reflexivity);
    try (destruct b, b0; cbn in *; congruence).
Qed.

Lemma dict_get_set (d : dict) (k v k' : python.value) :
  dict_get (dict_set d k v) k'
  = if key_eqb k k' then Some v else dict_get d k'.
Proof.
  induction d as [|[k0 v0] d IH]; cbn.
  - reflexivity.
  - destruct (key_eqb k0 k) eqn:H0k; cbn.
    + destruct (key_eqb k0 k') eqn:H0k'.
      * rewrite key_eqb_sym in H0k.
        now rewrite (key_eqb_trans k k0 k' H0k H0k').
      * destruct (key_eqb k k') eqn:Hkk'; [|reflexivity].
        rewrite (key_eqb_trans k0 k k' H0k Hkk') in H0k'. discriminate.
    + destruct (key_eqb k0 k') eqn:H0k'.
      * destruct (key_eqb k k') eqn:Hkk'; [|reflexivity].
        rewrite key_eqb_sym in Hkk'.
        rewrite (key_eqb_trans k0 k' k H0k' Hkk') in H0k. discriminate.
      * apply IH.
Qed.

Lemma Dictionary_loop_lookup (settings : schema.DictionarySettings)
    (items : dict) :
  forall result,
    schema.error (schema.Dictionary_loop settings items result) = None ->
    exists out,
      schema.Dictionary_loop settings items result
      = schema.Result_ok (VDict out) /\
      forall k',
        dict_get out k'
        = fold_left (schema_lookup.store_step settings k') items
            (dict_get result k').
Proof.
  induction items as [|[k v] items IH]; intros result Hok.
  - exists result. split; reflexivity.
  - cbn [schema.Dictionary_loop fold_left] in *. cbv zeta in *.
    unfold schema_lookup.store_step at 2. cbn [fst snd].
    destruct (schema.error (schema.read (schema.key settings) k));
      [discriminate|].
    destruct (schema.error (schema.read (schema.value_ settings) v));
      [discriminate|].
    destruct (is_None (schema.ok (schema.read (schema.value_ settings) v))).
    + apply IH. exact Hok.
    + destruct (IH _ Hok) as (out & Hout & Hget).
      exists out. split; [exact Hout|].
      intros k'. rewrite Hget, dict_get_set. reflexivity.
Qed.

End lookup_facts.

(** X16: when every key and every value of a dict validates, looking a
    key up in the answer of [Dictionary.read] gives what storing the
    entries one after the other gives: the validated value of the last
    input entry whose validated key equals it and whose validated value is
    not [None]; an entry that validates to [None] neither stores nor
    removes anything. *)
Theorem Dictionary_lookup (settings : schema.DictionarySettings) (d : dict) :
  schema.is_valid (schema.Dictionary settings) (VDict d) = true ->
  exists out,
    schema.read (schema.Dictionary settings) (VDict d)
    = schema.Result_ok (VDict out) /\
    forall k', dict_get out k' = schema_lookup.validated_lookup settings d k'.
Proof.
  unfold schema.is_valid. intros Hvalid.
  destruct (schema.error (schema.read (schema.Dictionary settings) (VDict d)))
    eqn:Hok; [discriminate|].
  exact (Dictionary_loop_lookup settings d [] Hok).
Qed.

Lemma Dictionary_lookup_witness :
  exists out,
    schema.read (schema.dictionary (schema.Optional_ schema.Integer) None)
      (VDict [(VStr "a", VInt 1); (VStr "b", VNone)])
    = schema.Result_ok (VDict out) /\
    forall k',
      dict_get out k'
      = schema_lookup.validated_lookup
          (schema.mkDictionarySettings (schema.Optional_ schema.Integer)
             schema.String)
          [(VStr "a", VInt 1); (VStr "b", VNone)] k'.
Proof.
  apply (Dictionary_lookup
           (schema.mkDictionarySettings (schema.Optional_ schema.Integer)
              schema.String)
           [(VStr "a", VInt 1); (VStr "b", VNone)]).
  reflexivity.
Defined.
